(** * SentimentLab: the analysis core, embedded and verified

    A shallow embedding of
      - [src/services/huggingfaceApi.ts]  (class [HuggingFaceService]) and
      - [src/hooks/useSentimentAnalysis.ts] (hook [useSentimentAnalysis]),
    with the types of [types/sentiment.ts], and of the parts of
    [src/services/exportService.ts] and of the settings page that work on
    the same data.

    Conventions of the embedding.
      - JavaScript strings are [string] (ASCII); [toLowerCase], [trim] and the
        word class [\w] are modelled on ASCII characters.
      - JavaScript numbers that carry scores are exact rationals [Q], so the
        rounding of binary64 is not modelled; the one place where the source
        divides by a possibly zero length ([averageConfidence]) uses [jsnum],
        which has NaN and the infinities.
      - The storage holds the values handed to [JSON.stringify]; the JSON
        text and its parsing are not modelled.
      - [Math.random], [Date.now], id generation and the network are oracles
        passed to the functions that use them. *)

From Stdlib Require Import List String Ascii Bool Arith ZArith QArith Qminmax Qabs Lia Lqa.
From Equations Require Import Equations.
Import ListNotations.

Local Open Scope string_scope.

(* ===================================================================== *)
(** ** JavaScript string primitives used by the source                    *)
(* ===================================================================== *)

Module Js.

(** [c.toLowerCase()] on one ASCII character. *)
Definition lower_ascii (c : ascii) : ascii :=
  let n := nat_of_ascii c in
  if (65 <=? n)%nat && (n <=? 90)%nat then ascii_of_nat (n + 32) else c.

(** [s.toLowerCase()]. *)
Fixpoint toLowerCase (s : string) : string :=
  match s with
  | EmptyString => EmptyString
  | String c s' => String (lower_ascii c) (toLowerCase s')
  end.

(** [s.startsWith(p)]. *)
Definition startsWith (s p : string) : bool := String.prefix p s.

(** [s.includes(sub)]. *)
Fixpoint includes (s sub : string) : bool :=
  if String.prefix sub s then true
  else match s with
       | EmptyString => false
       | String _ s' => includes s' sub
       end.

(** White space removed by [trim] (the ASCII part of the ECMAScript set). *)
Definition is_whitespace (c : ascii) : bool :=
  let n := nat_of_ascii c in
  ((9 <=? n)%nat && (n <=? 13)%nat) || (n =? 32)%nat.

Fixpoint trimStart (s : string) : string :=
  match s with
  | EmptyString => EmptyString
  | String c s' => if is_whitespace c then trimStart s' else s
  end.

(** [trimEnd]: a suffix made of white space only is dropped. *)
Fixpoint trimEnd (s : string) : string :=
  match s with
  | EmptyString => EmptyString
  | String c s' =>
      match trimEnd s' with
      | EmptyString => if is_whitespace c then EmptyString else String c EmptyString
      | t => String c t
      end
  end.

Definition trim (s : string) : string := trimEnd (trimStart s).

(** Truthiness of a string value: the empty string is the only falsy one. *)
Definition truthy (s : string) : bool :=
  match s with EmptyString => false | _ => true end.

(** The regular-expression class [\w]. *)
Definition is_word_char (c : ascii) : bool :=
  let n := nat_of_ascii c in
  ((48 <=? n)%nat && (n <=? 57)%nat) ||
  ((65 <=? n)%nat && (n <=? 90)%nat) ||
  ((97 <=? n)%nat && (n <=? 122)%nat) ||
  (n =? 95)%nat.

(** [s.match(/\b\w+\b/g) || []]: the maximal runs of word characters, in
    order.  [cur] is the run being read, most recent character first. *)
Fixpoint match_words_from (s : string) (cur : list ascii) : list string :=
  let flush := match cur with
               | [] => []
               | _ => [string_of_list_ascii (rev cur)]
               end in
  match s with
  | EmptyString => flush
  | String c s' =>
      if is_word_char c then match_words_from s' (c :: cur)
      else flush ++ match_words_from s' []
  end.

Definition match_words (s : string) : list string := match_words_from s [].

(** [arr.includes(x)] on an array of strings. *)
Definition array_includes (arr : list string) (x : string) : bool :=
  existsb (String.eqb x) arr.

(** [arr.findIndex(p)], with [None] for -1. *)
Fixpoint findIndex {A} (p : A -> bool) (arr : list A) : option nat :=
  match arr with
  | [] => None
  | x :: rest => if p x then Some 0%nat else option_map S (findIndex p rest)
  end.

(** [arr.filter((x, index) => p x index)]. *)
Fixpoint filter_indexed_from {A} (p : A -> nat -> bool) (i : nat) (arr : list A)
  : list A :=
  match arr with
  | [] => []
  | x :: rest =>
      if p x i then x :: filter_indexed_from p (S i) rest
      else filter_indexed_from p (S i) rest
  end.

Definition filter_indexed {A} (p : A -> nat -> bool) (arr : list A) : list A :=
  filter_indexed_from p 0 arr.

(** Numbers that can be NaN or infinite. *)
Inductive jsnum : Type :=
| Finite (q : Q)
| PosInfinity
| NegInfinity
| NaN.

(** [a / b] on finite operands, as IEEE 754 defines it at a zero divisor. *)
Definition div (a b : Q) : jsnum :=
  if Qeq_bool b 0 then
    if Qeq_bool a 0 then NaN
    else if Qle_bool 0 a then PosInfinity else NegInfinity
  else Finite (a / b).

End Js.

(* ===================================================================== *)
(** ** Data model ([types/sentiment.ts])                                  *)
(* ===================================================================== *)

Inductive Sentiment : Type := Positive | Negative | Neutral.

Definition Sentiment_eqb (a b : Sentiment) : bool :=
  match a, b with
  | Positive, Positive | Negative, Negative | Neutral, Neutral => true
  | _, _ => false
  end.

(** The [scores] object; its key order is positive, negative, neutral. *)
Record Scores : Type := mkScores { positive : Q; negative : Q; neutral : Q }.

Definition get_score (sc : Scores) (s : Sentiment) : Q :=
  match s with
  | Positive => positive sc
  | Negative => negative sc
  | Neutral => neutral sc
  end.

Definition set_score (sc : Scores) (s : Sentiment) (v : Q) : Scores :=
  match s with
  | Positive => mkScores v (negative sc) (neutral sc)
  | Negative => mkScores (positive sc) v (neutral sc)
  | Neutral => mkScores (positive sc) (negative sc) v
  end.

(** [Object.keys(scores)]. *)
Definition score_keys : list Sentiment := [Positive; Negative; Neutral].

Record Keyword : Type := mkKeyword
  { word : string; kw_sentiment : Sentiment; weight : Q }.

(** One element of the classifier's answer. *)
Record HuggingFaceResponse : Type := mkResponse { label : string; score : Q }.

(* ===================================================================== *)
(** ** Label mapper and score normalizer                                  *)
(* ===================================================================== *)

Definition mapSentimentLabel (label : string) : Sentiment :=
  let normalizedLabel := Js.toLowerCase label in
  if Js.includes normalizedLabel "positive"
     || String.eqb normalizedLabel "label_2"
     || String.eqb normalizedLabel "pos"
     || Js.includes normalizedLabel "5 stars"
     || Js.includes normalizedLabel "4 stars"
  then Positive
  else if Js.includes normalizedLabel "negative"
          || String.eqb normalizedLabel "label_0"
          || String.eqb normalizedLabel "neg"
          || Js.includes normalizedLabel "1 star"
          || Js.includes normalizedLabel "2 stars"
  then Negative
  else Neutral.

(** [Math.max(0, Math.min(1, x))]. *)
Definition clamp01 (x : Q) : Q := Qmax 0 (Qmin 1 x).

Definition zero_scores : Scores := mkScores 0 0 0.

(** The body of [results.forEach] in [analyzeSentiment]: the mapped bucket is
    assigned the clamped score, and the running total grows by it. *)
Definition score_step (acc : Scores * Q) (result : HuggingFaceResponse)
  : Scores * Q :=
  let (scores, totalScore) := acc in
  let mappedSentiment := mapSentimentLabel (label result) in
  let scores' := set_score scores mappedSentiment (clamp01 (score result)) in
  (scores', totalScore + get_score scores' mappedSentiment).

(** The state after the loop: the buckets before rescaling and [totalScore]. *)
Definition accumulate_scores (results : list HuggingFaceResponse) : Scores * Q :=
  fold_left score_step results (zero_scores, 0).

Definition Qlt_bool (a b : Q) : bool := negb (Qle_bool b a).

(** [if (totalScore > 0 && Math.abs(totalScore - 1) > 0.01)] divide every
    bucket by [totalScore]. *)
Definition rescale (scores : Scores) (totalScore : Q) : Scores :=
  if Qlt_bool 0 totalScore && Qlt_bool (1 # 100) (Qabs (totalScore - 1))
  then mkScores (positive scores / totalScore)
                (negative scores / totalScore)
                (neutral scores / totalScore)
  else scores.

(** The score-normalization step as a whole. *)
Definition normalize_scores (results : list HuggingFaceResponse) : Scores :=
  let (scores, totalScore) := accumulate_scores results in
  rescale scores totalScore.

(** [Object.entries(scores).reduce((a, b) => scores[a] > scores[b] ? a : b)]:
    a reduce without initial value, so the first key seeds the accumulator. *)
Definition pick (scores : Scores) (a b : Sentiment) : Sentiment :=
  if Qlt_bool (get_score scores b) (get_score scores a) then a else b.

Definition select_sentiment (scores : Scores) : Sentiment :=
  match score_keys with
  | [] => Neutral
  | k :: rest => fold_left (pick scores) rest k
  end.

Definition score_sum (sc : Scores) : Q := positive sc + negative sc + neutral sc.

(** The value of a sentiment as the source has it: a string literal. *)
Definition sentiment_name (s : Sentiment) : string :=
  match s with
  | Positive => "positive"
  | Negative => "negative"
  | Neutral => "neutral"
  end.

(** What [analyzeSentiment] and [analyzeSentimentDemo] resolve to. *)
Module Analysis.
Record t : Type := mk
  { sentiment : Sentiment;
    confidence : Q;
    scores : Scores;
    keywords : list Keyword;
    explanation : string }.
End Analysis.

(* ===================================================================== *)
(** ** Keyword extractor                                                  *)
(* ===================================================================== *)

Module Extractor.

Definition positiveWords : list string :=
  [ "good"; "great"; "excellent"; "amazing"; "wonderful"; "fantastic"; "love";
    "best"; "perfect"; "awesome";
    "outstanding"; "brilliant"; "superb"; "magnificent"; "incredible";
    "marvelous"; "exceptional"; "delightful";
    "impressive"; "remarkable"; "beautiful"; "lovely"; "nice"; "pleasant";
    "enjoyable"; "satisfying" ].

Definition negativeWords : list string :=
  [ "bad"; "terrible"; "awful"; "horrible"; "hate"; "worst"; "disappointing";
    "poor"; "useless"; "disgusting";
    "dreadful"; "appalling"; "atrocious"; "abysmal"; "pathetic"; "miserable";
    "unpleasant"; "annoying";
    "frustrating"; "irritating"; "boring"; "stupid"; "ridiculous"; "waste";
    "failure"; "broken" ].

End Extractor.

(** The body of [words.forEach]: a hit of either lexicon is pushed. *)
Definition keyword_of_word (w : string) : list Keyword :=
  if Js.array_includes Extractor.positiveWords w
  then [mkKeyword w Positive 0.8]
  else if Js.array_includes Extractor.negativeWords w
  then [mkKeyword w Negative 0.8]
  else [].

Definition collect_keywords (words : list string) : list Keyword :=
  flat_map keyword_of_word words.

(** [(keyword, index, self) =>
      index === self.findIndex(k => k.word === keyword.word)]. *)
Definition is_first_index (self : list Keyword) (keyword : Keyword) (index : nat)
  : bool :=
  match Js.findIndex (fun k => String.eqb (word k) (word keyword)) self with
  | Some j => (index =? j)%nat
  | None => false
  end.

(** [keywords.filter(...)] with that predicate, [self] being [keywords]. *)
Definition uniqueKeywords (keywords : list Keyword) : list Keyword :=
  Js.filter_indexed (is_first_index keywords) keywords.

Definition extractKeywords (text : string) (sentiment : Sentiment) : list Keyword :=
  let words := Js.match_words (Js.toLowerCase text) in
  let keywords := collect_keywords words in
  firstn 5 (uniqueKeywords keywords).

(* ===================================================================== *)
(** ** Explanation text, the live pipeline and the demo simulator         *)
(* ===================================================================== *)

Module Demo.

Definition positiveWords : list string :=
  [ "good"; "great"; "excellent"; "amazing"; "wonderful"; "fantastic"; "love";
    "best"; "perfect"; "awesome";
    "outstanding"; "brilliant"; "superb"; "magnificent"; "incredible";
    "marvelous"; "exceptional"; "delightful" ].

Definition negativeWords : list string :=
  [ "bad"; "terrible"; "awful"; "horrible"; "hate"; "worst"; "disappointing";
    "poor"; "useless"; "disgusting";
    "dreadful"; "appalling"; "atrocious"; "abysmal"; "pathetic"; "miserable";
    "unpleasant"; "annoying" ].

(** The body of [words.forEach] in [analyzeSentimentDemo]. *)
Definition count_step (acc : nat * nat) (w : string) : nat * nat :=
  let (positiveScore, negativeScore) := acc in
  let positiveScore :=
    if Js.array_includes positiveWords w then S positiveScore else positiveScore in
  let negativeScore :=
    if Js.array_includes negativeWords w then S negativeScore else negativeScore in
  (positiveScore, negativeScore).

(** [(positiveScore, negativeScore)] after the loop. *)
Definition hit_counts (text : string) : nat * nat :=
  fold_left count_step (Js.match_words (Js.toLowerCase text)) (0%nat, 0%nat).

Definition of_count (n : nat) : Q := inject_Z (Z.of_nat n).

(** The verdict, its confidence and the number of [Math.random] draws used
    so far ([random 0] is the draw of the simulated delay). *)
Definition verdict (random : nat -> Q) (positiveScore negativeScore : nat)
  : Sentiment * Q * nat :=
  if (negativeScore <? positiveScore)%nat then
    (Positive, Qmin (0.65 + of_count positiveScore * 0.08) 0.92, 1%nat)
  else if (positiveScore <? negativeScore)%nat then
    (Negative, Qmin (0.65 + of_count negativeScore * 0.08) 0.92, 1%nat)
  else
    (Neutral, 0.55 + random 1%nat * 0.25, 2%nat).

(** One property of the [scores] literal: the verdict's bucket takes the
    confidence, any other takes a fresh draw scaled below the remainder. *)
Definition bucket (random : nat -> Q) (sentiment : Sentiment) (confidence : Q)
    (key : Sentiment) (n : nat) : Q * nat :=
  if Sentiment_eqb sentiment key then (confidence, n)
  else (random n * (1 - confidence) * 0.6, S n).

End Demo.

Section Explained.

(** [x.toFixed(1)], a built-in of the language. *)
Variable toFixed1 : Q -> string.

Definition generateExplanation (sentiment : Sentiment) (confidence : Q)
    (keywords : list Keyword) : string :=
  let confidenceLevel :=
    if Qlt_bool 0.8 confidence then "high"
    else if Qlt_bool 0.6 confidence then "moderate" else "low" in
  let keywordText :=
    match keywords with
    | [] => ""
    | _ => " Key indicators include words like: "
           ++ String.concat ", " (map word keywords) ++ "."
    end in
  "This text shows " ++ sentiment_name sentiment ++ " sentiment with "
    ++ confidenceLevel ++ " confidence (" ++ toFixed1 (confidence * 100)
    ++ "%)." ++ keywordText.

(** What the queued closure of [analyzeSentiment] does with the answer of
    [makeApiCall]. *)
Definition analyzeSentiment_of (text : string)
    (results : list HuggingFaceResponse) : Analysis.t :=
  let scores := normalize_scores results in
  let sentiment := select_sentiment scores in
  let confidence := get_score scores sentiment in
  let keywords := extractKeywords text sentiment in
  let explanation := generateExplanation sentiment confidence keywords in
  Analysis.mk sentiment confidence scores keywords explanation.

(** The simulated delay in milliseconds. *)
Definition demo_delay (random : nat -> Q) : Q := 1500 + random 0%nat * 1000.

(** [analyzeSentimentDemo]; [random n] is the n-th draw of [Math.random]
    made by this call. *)
Definition analyzeSentimentDemo (random : nat -> Q) (text : string) : Analysis.t :=
  let (positiveScore, negativeScore) := Demo.hit_counts text in
  let '(sentiment, confidence, n) :=
    Demo.verdict random positiveScore negativeScore in
  let (p, n) := Demo.bucket random sentiment confidence Positive n in
  let (g, n) := Demo.bucket random sentiment confidence Negative n in
  let (u, n) := Demo.bucket random sentiment confidence Neutral n in
  let total := p + g + u in
  let scores := mkScores (p / total) (g / total) (u / total) in
  let keywords := extractKeywords text sentiment in
  let explanation := generateExplanation sentiment confidence keywords in
  Analysis.mk sentiment confidence scores keywords explanation.

End Explained.

(* ===================================================================== *)
(** ** Inference client ([makeApiCall])                                   *)
(* ===================================================================== *)

Definition HUGGINGFACE_API_URL : string :=
  "https://api-inference.huggingface.co/models/cardiffnlp/twitter-roberta-base-sentiment-latest".
Definition FALLBACK_API_URL : string :=
  "https://api-inference.huggingface.co/models/nlptown/bert-base-multilingual-uncased-sentiment".

(** Values that [JSON.parse] returns. *)
#[local] Set Warnings "-register-all".
Inductive json : Type :=
| JNull
| JBool (b : bool)
| JNum (q : Q)
| JStr (s : string)
| JArr (items : list json)
| JObj (fields : list (string * json)).

(** What a [throw] or a rejected promise carries. *)
Inductive Thrown : Type :=
| JsError (message : string)       (* [new Error(message)] *)
| JsTypeError (message : string)   (* a [TypeError], also an [Error] *)
| NonError.                        (* a thrown value that is no [Error] *)

(** [error instanceof Error ? error.message : fallback]. *)
Definition message_or (fallback : string) (error : Thrown) : string :=
  match error with
  | JsError m | JsTypeError m => m
  | NonError => fallback
  end.

Record Request : Type := mkRequest
  { url : string; authorization : string; inputs : string }.

Record HttpResponse : Type := mkHttpResponse
  { status : Z; statusText : string; responseText : string }.

(** [response.ok]. *)
Definition ok (r : HttpResponse) : bool :=
  ((200 <=? status r) && (status r <=? 299))%Z.

(** Property read [v.key] on a parsed value that is not [null]: [None] is
    [undefined].  [JSON.parse] keeps the last of duplicate keys. *)
Definition prop (v : json) (key : string) : option json :=
  match v with
  | JObj fields =>
      option_map snd (find (fun kv => String.eqb (fst kv) key) (rev fields))
  | _ => None
  end.

(** Truthiness of a property read. *)
Definition truthy (v : option json) : bool :=
  match v with
  | None | Some JNull => false
  | Some (JBool b) => b
  | Some (JNum q) => negb (Qeq_bool q 0)
  | Some (JStr s) => Js.truthy s
  | Some (JArr _) | Some (JObj _) => true
  end.

Module Msg.
Definition keyNotSet : string :=
  "Hugging Face API key not set. Please add your API key in the settings.".
Definition dquote : string := String (ascii_of_nat 34) EmptyString.
Definition keyFormat : string :=
  "Invalid API key format. Hugging Face API keys should start with "
    ++ dquote ++ "hf_" ++ dquote ++ ".".
Definition modelNotFound : string :=
  "Model not found. The sentiment analysis model may be temporarily unavailable. Please try again later.".
Definition invalidKey : string :=
  "Invalid API key. Please check your Hugging Face API key in Settings.".
Definition forbidden : string :=
  "Access forbidden. Please check your API key permissions or try a different model.".
Definition rateLimit : string :=
  "Rate limit exceeded. Please wait a moment before making more requests.".
Definition modelLoading : string :=
  "Model is currently loading. Please try again in a few moments.".
Definition invalidFormat : string :=
  "Invalid response format from API. Please try again.".
Definition unexpectedFormat : string :=
  "Unexpected API response format. Please try again.".
Definition network : string :=
  "Network error. Please check your internet connection and try again.".
End Msg.

(** The effect of [makeApiCall]: the requests sent, oldest first, and either
    the thrown value or the returned one. *)
Definition Net (A : Type) : Type := list Request * (Thrown + A).

Definition ret {A} (a : A) : Net A := ([], inr a).
Definition throw {A} (e : Thrown) : Net A := ([], inl e).
Definition sent {A} (r : Request) (k : Net A) : Net A := (r :: fst k, snd k).

(** How one attempt ends once a response with a body is in hand. *)
Inductive Attempt (useFailover : bool) : Type :=
| TryFallback : useFailover = false -> Attempt useFailover
| Settled : Thrown + list json -> Attempt useFailover.
Arguments TryFallback {useFailover} _.
Arguments Settled {useFailover} _.

Section Client.

(** [this.apiKey]. *)
Variable apiKey : option string.
(** [fetch] followed by [response.text()]: the remote endpoint. *)
Variable fetch : Request -> Thrown + HttpResponse.
(** [JSON.parse]; [None] when it throws a [SyntaxError]. *)
Variable JSON_parse : string -> option json.
(** The conversion to string of template literals and of [new Error(v)]. *)
Variable toString : json -> string.
(** The message of the [TypeError] of a property read on [null]. *)
Variable nullReadMessage : string.

(** The two guards on the credential; [None] when both pass. *)
Definition check_key : option Thrown :=
  match apiKey with
  | None => Some (JsError Msg.keyNotSet)
  | Some k =>
      if (String.length k =? 0)%nat then Some (JsError Msg.keyNotSet)
      else if negb (Js.startsWith k "hf_") then Some (JsError Msg.keyFormat)
      else None
  end.

Definition bearer : string :=
  "Bearer " ++ match apiKey with Some k => k | None => "" end.

Definition request_for (text : string) (useFailover : bool) : Request :=
  let apiUrl := if useFailover then FALLBACK_API_URL else HUGGINGFACE_API_URL in
  mkRequest apiUrl bearer (String.substring 0 500 text).

(** [errorMessage] after the inner [try] of the failure branch. *)
Definition errorMessage_of (response : HttpResponse) : string :=
  let default :=
    "API request failed (" ++ toString (JNum (inject_Z (status response)))
      ++ "): " ++ statusText response in
  match JSON_parse (responseText response) with
  | None | Some JNull => default
  | Some errorData =>
      if truthy (prop errorData "error") then
        match prop errorData "error" with
        | Some e =>
            toString e ++
            (if truthy (prop errorData "estimated_time") then
               match prop errorData "estimated_time" with
               | Some t => " Model is loading, estimated time: " ++ toString t
                           ++ "s. Please try again in a moment."
               | None => ""
               end
             else "")
        | None => default
        end
      else default
  end.

(** The [if]/[else if] chain over [response.status], 404 apart. *)
Definition status_error (response : HttpResponse) : Thrown :=
  let st := status response in
  if (st =? 401)%Z then JsError Msg.invalidKey
  else if (st =? 403)%Z then JsError Msg.forbidden
  else if (st =? 429)%Z then JsError Msg.rateLimit
  else if (st =? 503)%Z then JsError Msg.modelLoading
  else JsError (errorMessage_of response).

(** The success branch: parse, then probe the two accepted shapes. *)
Definition read_body (response : HttpResponse) : Thrown + list json :=
  match JSON_parse (responseText response) with
  | None => inl (JsError Msg.invalidFormat)
  | Some (JArr (JArr inner :: _)) => inr inner
  | Some (JArr (JNull :: _)) => inl (JsTypeError nullReadMessage)
  | Some (JArr (first :: rest)) =>
      if truthy (prop first "label")
         && match prop first "score" with Some _ => true | None => false end
      then inr (first :: rest)
      else inl (JsError Msg.unexpectedFormat)
  | Some _ => inl (JsError Msg.unexpectedFormat)
  end.

(** The [try] block after the response has arrived. *)
Definition on_response (response : HttpResponse) (useFailover : bool)
  : Attempt useFailover :=
  if negb (ok response) then
    if (status response =? 404)%Z then
      match useFailover as b return Attempt b with
      | false => TryFallback eq_refl
      | true => Settled (inl (JsError Msg.modelNotFound))
      end
    else Settled (inl (status_error response))
  else Settled (read_body response).

(** The [catch] block. *)
Definition on_catch (error : Thrown) : Thrown :=
  match error with
  | JsTypeError m => if Js.includes m "fetch" then JsError Msg.network else error
  | _ => error
  end.

Definition settle (r : Thrown + list json) : Thrown + list json :=
  match r with
  | inl e => inl (on_catch e)
  | inr data => inr data
  end.

(** [makeApiCall].  The promise of the recursive call is returned without
    being awaited, so the [catch] block of the caller does not see it. *)
Equations makeApiCall (text : string) (useFailover : bool) : Net (list json)
  by wf (if useFailover then 0 else 1)%nat lt :=
  makeApiCall text useFailover with check_key := {
    | Some e => throw e
    | None with fetch (request_for text useFailover) := {
        | inl e => sent (request_for text useFailover) (throw (on_catch e))
        | inr response with on_response response useFailover := {
            | TryFallback pf =>
                sent (request_for text useFailover) (makeApiCall text true)
            | Settled r =>
                sent (request_for text useFailover) ([], settle r) } } }.

End Client.

(* ===================================================================== *)
(** ** Analysis orchestrator ([useSentimentAnalysis])                     *)
(* ===================================================================== *)

Module SentimentResult.
Record t : Type := mk
  { id : string;
    text : string;
    sentiment : Sentiment;
    confidence : Q;
    scores : Scores;
    keywords : list Keyword;
    timestamp : Z;
    explanation : string }.
End SentimentResult.

Module BatchResult.
Record Summary : Type := mkSummary
  { totalTexts : nat;
    positiveCount : nat;
    negativeCount : nat;
    neutralCount : nat;
    averageConfidence : Js.jsnum }.
Record t : Type := mk
  { id : string;
    name : string;
    results : list SentimentResult.t;
    summary : Summary;
    createdAt : Z }.
End BatchResult.

Module AnalysisState.
Record t : Type := mk
  { isLoading : bool;
    progress : Q;
    error : option string;
    results : list SentimentResult.t;
    batches : list BatchResult.t }.
End AnalysisState.

(** The two records of [localStorage] the hook owns; [None] is an absent key. *)
Record Storage : Type := mkStorage
  { sentimentResults : option (list SentimentResult.t);
    sentimentBatches : option (list BatchResult.t) }.

(** What the hook cannot compute by itself.  [n] numbers the analyses and the
    batches in the order the hook starts them. *)
Record Env : Type := mkEnv
  { (** [huggingFaceService.analyzeSentimentDemo] ([true]) or
        [analyzeSentiment] ([false]) on the n-th call. *)
    analyze : bool -> nat -> string -> Thrown + Analysis.t;
    (** The n-th [`result_${Date.now()}_${Math.random()...}`]. *)
    result_id : nat -> string;
    (** The n-th [`batch_${Date.now()}_${Math.random()...}`]. *)
    batch_id : nat -> string;
    (** The n-th [new Date()]. *)
    now : nat -> Z }.

(** The hook's state, the storage behind it, and the oracle counter. *)
Record World : Type := mkWorld
  { state : AnalysisState.t; storage : Storage; tick : nat }.

(** The initial value of [useState]: both collections read from storage. *)
Definition initial_state (st : Storage) : AnalysisState.t :=
  AnalysisState.mk false 0 None
    (match sentimentResults st with Some rs => rs | None => [] end)
    (match sentimentBatches st with Some bs => bs | None => [] end).

Definition empty_storage : Storage := mkStorage None None.

Definition empty_world : World :=
  mkWorld (initial_state empty_storage) empty_storage 0.

Definition saveToLocalStorage (results : list SentimentResult.t)
    (batches : list BatchResult.t) : Storage :=
  mkStorage (Some results) (Some batches).

(** [{ ...prev, isLoading: true, error: null, progress: 0 }]. *)
Definition start_loading (prev : AnalysisState.t) : AnalysisState.t :=
  AnalysisState.mk true 0 None
    (AnalysisState.results prev) (AnalysisState.batches prev).

(** [{ ...prev, isLoading: false, error: message }]. *)
Definition record_failure (prev : AnalysisState.t) (message : string)
  : AnalysisState.t :=
  AnalysisState.mk false (AnalysisState.progress prev) (Some message)
    (AnalysisState.results prev) (AnalysisState.batches prev).

(** [{ ...prev, progress: p }]. *)
Definition set_progress (prev : AnalysisState.t) (p : Q) : AnalysisState.t :=
  AnalysisState.mk (AnalysisState.isLoading prev) p (AnalysisState.error prev)
    (AnalysisState.results prev) (AnalysisState.batches prev).

(** The [SentimentResult] literal both operations build. *)
Definition build_result (env : Env) (n : nat) (text : string)
    (analysis : Analysis.t) : SentimentResult.t :=
  SentimentResult.mk (result_id env n) text
    (Analysis.sentiment analysis) (Analysis.confidence analysis)
    (Analysis.scores analysis) (Analysis.keywords analysis)
    (now env n) (Analysis.explanation analysis).

Definition analyzeSingleText (env : Env) (text : string) (useDemo : bool)
    (w : World) : (Thrown + SentimentResult.t) * World :=
  let st := start_loading (state w) in
  match analyze env useDemo (tick w) text with
  | inr analysis =>
      let result := build_result env (tick w) text analysis in
      let newResults := result :: AnalysisState.results st in
      (inr result,
       mkWorld
         (AnalysisState.mk false 100 (AnalysisState.error st)
            newResults (AnalysisState.batches st))
         (saveToLocalStorage newResults (AnalysisState.batches st))
         (S (tick w)))
  | inl error =>
      (inl error,
       mkWorld (record_failure st (message_or "Analysis failed" error))
         (storage w) (S (tick w)))
  end.

Definition of_nat (n : nat) : Q := inject_Z (Z.of_nat n).

(** The [for] loop of [analyzeBatch] from index [i] on: [results] is the
    local array, [st] the state the progress updates act on. *)
Fixpoint batch_loop (env : Env) (useDemo : bool) (total : nat)
    (texts : list string) (i : nat) (results : list SentimentResult.t)
    (st : AnalysisState.t) (n : nat)
  : (Thrown + list SentimentResult.t) * AnalysisState.t * nat :=
  match texts with
  | [] => (inr results, st, n)
  | text :: rest =>
      let advance st := set_progress st (of_nat (i + 1) / of_nat total * 100) in
      if Js.truthy (Js.trim text) then
        match analyze env useDemo n text with
        | inr analysis =>
            let result := build_result env n text analysis in
            batch_loop env useDemo total rest (S i) (results ++ [result])
              (advance st) (S n)
        | inl error => (inl error, st, S n)
        end
      else batch_loop env useDemo total rest (S i) results (advance st) n
  end.

Definition count_sentiment (s : Sentiment) (results : list SentimentResult.t)
  : nat :=
  List.length (filter (fun r => Sentiment_eqb (SentimentResult.sentiment r) s) results).

(** The [summary] literal. *)
Definition summarize (results : list SentimentResult.t) : BatchResult.Summary :=
  BatchResult.mkSummary
    (List.length results)
    (count_sentiment Positive results)
    (count_sentiment Negative results)
    (count_sentiment Neutral results)
    (Js.div (fold_left (fun sum r => sum + SentimentResult.confidence r) results 0)
            (of_nat (List.length results))).

Definition analyzeBatch (env : Env) (texts : list string) (batchName : string)
    (useDemo : bool) (w : World) : (Thrown + BatchResult.t) * World :=
  let st := start_loading (state w) in
  let total := List.length texts in
  match batch_loop env useDemo total texts 0 [] st (tick w) with
  | (inr results, st, n) =>
      let batch :=
        BatchResult.mk (batch_id env n) batchName results
          (summarize results) (now env n) in
      let newResults := (results ++ AnalysisState.results st)%list in
      let newBatches := batch :: AnalysisState.batches st in
      (inr batch,
       mkWorld
         (AnalysisState.mk false (AnalysisState.progress st)
            (AnalysisState.error st) newResults newBatches)
         (saveToLocalStorage newResults newBatches)
         (S n))
  | (inl error, st, n) =>
      (inl error,
       mkWorld (record_failure st (message_or "Batch analysis failed" error))
         (storage w) n)
  end.

Definition clearResults (w : World) : World :=
  let prev := state w in
  mkWorld
    (AnalysisState.mk (AnalysisState.isLoading prev) (AnalysisState.progress prev)
       (AnalysisState.error prev) [] [])
    (mkStorage None None)
    (tick w).

Definition with_collections (prev : AnalysisState.t)
    (results : list SentimentResult.t) (batches : list BatchResult.t)
  : AnalysisState.t :=
  AnalysisState.mk (AnalysisState.isLoading prev) (AnalysisState.progress prev)
    (AnalysisState.error prev) results batches.

Definition deleteResult (id : string) (w : World) : World :=
  let prev := state w in
  let newResults :=
    filter (fun r => negb (String.eqb (SentimentResult.id r) id))
      (AnalysisState.results prev) in
  mkWorld (with_collections prev newResults (AnalysisState.batches prev))
    (saveToLocalStorage newResults (AnalysisState.batches prev))
    (tick w).

Definition deleteBatch (id : string) (w : World) : World :=
  let prev := state w in
  let batch := find (fun b => String.eqb (BatchResult.id b) id)
                 (AnalysisState.batches prev) in
  let newBatches :=
    filter (fun b => negb (String.eqb (BatchResult.id b) id))
      (AnalysisState.batches prev) in
  let newResults :=
    match batch with
    | Some batch =>
        filter
          (fun r =>
             negb (existsb
                     (fun br => String.eqb (SentimentResult.id br)
                                  (SentimentResult.id r))
                     (BatchResult.results batch)))
          (AnalysisState.results prev)
    | None => AnalysisState.results prev
    end in
  mkWorld (with_collections prev newResults newBatches)
    (saveToLocalStorage newResults newBatches)
    (tick w).

(** The operations the hook returns, as labels of a transition system. *)
Inductive Op : Type :=
| AnalyzeSingleText (text : string) (useDemo : bool)
| AnalyzeBatch (texts : list string) (batchName : string) (useDemo : bool)
| ClearResults
| DeleteResult (id : string)
| DeleteBatch (id : string).

Definition run (env : Env) (w : World) (op : Op) : World :=
  match op with
  | AnalyzeSingleText text useDemo => snd (analyzeSingleText env text useDemo w)
  | AnalyzeBatch texts batchName useDemo =>
      snd (analyzeBatch env texts batchName useDemo w)
  | ClearResults => clearResults w
  | DeleteResult id => deleteResult id w
  | DeleteBatch id => deleteBatch id w
  end.

Definition run_all (env : Env) (ops : list Op) : World :=
  fold_left (run env) ops empty_world.

(** The ids a batch refers to. *)
Definition member_ids (b : BatchResult.t) : list string :=
  map SentimentResult.id (BatchResult.results b).

Definition result_ids (w : World) : list string :=
  map SentimentResult.id (AnalysisState.results (state w)).

(** The invariant of the data model: what a batch refers to is stored. *)
Definition batch_members_present (w : World) : Prop :=
  forall b i,
    In b (AnalysisState.batches (state w)) ->
    In i (member_ids b) -> In i (result_ids w).

(** Some batch of the state refers to the id. *)
Definition referenced (w : World) (i : string) : Prop :=
  exists b, In b (AnalysisState.batches (state w)) /\ In i (member_ids b).

(* ===================================================================== *)
(** ** Vocabulary of the specification                                    *)
(* ===================================================================== *)

(** *** Normalizer *)

(** The triple sums to 1 within the tolerance 0.01. *)
Definition sums_to_one (sc : Scores) : Prop := Qabs (score_sum sc - 1) <= 1 # 100.

Definition all_zero (sc : Scores) : Prop :=
  positive sc == 0 /\ negative sc == 0 /\ neutral sc == 0.

(** The sum of the clamped input scores. *)
Definition clamped_total (results : list HuggingFaceResponse) : Q :=
  fold_right (fun r acc => clamp01 (score r) + acc) 0 results.

(** The contract of the normalizer: all zeros exactly when the clamped input
    sums to 0, and a sum of 1 within tolerance otherwise. *)
Definition normalizer_contract (results : list HuggingFaceResponse) : Prop :=
  let out := normalize_scores results in
  (all_zero out <-> clamped_total results == 0)
  /\ (~ clamped_total results == 0 -> sums_to_one out).

(** The bucket an element of the answer is written to. *)
Definition bucket_of (r : HuggingFaceResponse) : Sentiment :=
  mapSentimentLabel (label r).

Definition maps_to (s : Sentiment) (r : HuggingFaceResponse) : bool :=
  Sentiment_eqb (bucket_of r) s.

(** No two elements of the answer are written to the same bucket. *)
Definition distinct_buckets (results : list HuggingFaceResponse) : Prop :=
  NoDup (map bucket_of results).

(** Aggregation as the specification words it: the clamp of the sum of the
    raw scores of all labels that map to the bucket. *)
Definition bucket_sum_spec (results : list HuggingFaceResponse) (s : Sentiment)
  : Q :=
  clamp01 (fold_right Qplus 0 (map score (filter (maps_to s) results))).

(** What the loop leaves in a bucket: the clamp of the last score written. *)
Definition last_score (results : list HuggingFaceResponse) (s : Sentiment) : Q :=
  match rev (filter (maps_to s) results) with
  | r :: _ => clamp01 (score r)
  | [] => 0
  end.

(** *** Verdict *)

(** Position in the enumeration order positive, negative, neutral. *)
Definition rank (s : Sentiment) : nat :=
  match s with Positive => 0 | Negative => 1 | Neutral => 2 end.

Definition is_max (sc : Scores) (s : Sentiment) : Prop :=
  forall s', get_score sc s' <= get_score sc s.

(** The maximum is attained by more than one sentiment. *)
Definition tied (sc : Scores) : Prop :=
  exists a b, a <> b /\ is_max sc a /\ is_max sc b.

Definition first_max (sc : Scores) (s : Sentiment) : Prop :=
  is_max sc s /\
  forall s', (rank s' < rank s)%nat -> get_score sc s' < get_score sc s.

Definition last_max (sc : Scores) (s : Sentiment) : Prop :=
  is_max sc s /\
  forall s', (rank s < rank s')%nat -> get_score sc s' < get_score sc s.

(** *** Keywords *)

(** Duplicate removal as the specification words it: scanning in order, an
    entry is kept when its word has not been seen before. *)
Fixpoint first_occurrences (seen : list string) (ks : list Keyword)
  : list Keyword :=
  match ks with
  | [] => []
  | k :: rest =>
      if Js.array_includes seen (word k)
      then first_occurrences seen rest
      else k :: first_occurrences (word k :: seen) rest
  end.

(** An entry tagged with the sentiment of the lexicon its word is in. *)
Definition lexicon_entry (k : Keyword) : Prop :=
  (In (word k) Extractor.positiveWords /\ kw_sentiment k = Positive)
  \/ (In (word k) Extractor.negativeWords /\ kw_sentiment k = Negative).

(** Hits of a text in a pair of word lists. *)
Definition lexicon_hits (pos neg : list string) (text : string) : nat * nat :=
  let words := Js.match_words (Js.toLowerCase text) in
  (List.length (filter (Js.array_includes pos) words),
   List.length (filter (Js.array_includes neg) words)).

(** *** Batches *)

(** A text that [trim] empties: white space only. *)
Definition blank (text : string) : Prop :=
  Forall (fun c => Js.is_whitespace c = true) (list_ascii_of_string text).

(** The error of the first analysis of the batch that fails, if any. *)
Fixpoint first_failure (env : Env) (useDemo : bool) (texts : list string)
    (n : nat) : option Thrown :=
  match texts with
  | [] => None
  | text :: rest =>
      if Js.truthy (Js.trim text) then
        match analyze env useDemo n text with
        | inl error => Some error
        | inr _ => first_failure env useDemo rest (S n)
        end
      else first_failure env useDemo rest n
  end.

(** Generated result ids never repeat. *)
Definition fresh_ids (env : Env) : Prop :=
  forall i j, result_id env i = result_id env j -> i = j.

(** Every id a batch refers to was generated before the current tick. *)
Definition issued (env : Env) (w : World) : Prop :=
  forall b i,
    In b (AnalysisState.batches (state w)) ->
    In i (member_ids b) -> exists k, (k < tick w)%nat /\ i = result_id env k.

Definition disjoint_members (b1 b2 : BatchResult.t) : Prop :=
  forall i, In i (member_ids b1) -> ~ In i (member_ids b2).

(** No id is a member of two batches. *)
Definition batches_apart (w : World) : Prop :=
  ForallOrdPairs disjoint_members (AnalysisState.batches (state w)).

(** The invariant together with what its preservation rests on. *)
Definition consistent (env : Env) (w : World) : Prop :=
  batch_members_present w /\ issued env w /\ batches_apart w.

(** An operation that leaves the batches' references alone: every operation
    but the deletion of a result some batch refers to. *)
Definition keeps_members (w : World) (op : Op) : Prop :=
  match op with
  | DeleteResult i => ~ referenced w i
  | _ => True
  end.

(** States reached from the empty one by such operations. *)
Inductive reachable (env : Env) : World -> Prop :=
| reach_empty : reachable env empty_world
| reach_step w op :
    reachable env w -> keeps_members w op -> reachable env (run env w op).

(* ===================================================================== *)
(** ** Sample inputs                                                      *)
(* ===================================================================== *)

Module Sample.

(** The answer shape of the fallback model: five star labels. *)
Definition star_answer : list HuggingFaceResponse :=
  [ mkResponse "1 star" (1 # 8); mkResponse "2 stars" (1 # 8);
    mkResponse "3 stars" (1 # 4); mkResponse "4 stars" (1 # 4);
    mkResponse "5 stars" (1 # 4) ].

Definition two_positive : list HuggingFaceResponse :=
  [ mkResponse "4 stars" (1 # 4); mkResponse "5 stars" (1 # 2) ].

Definition even_split : list HuggingFaceResponse :=
  [ mkResponse "positive" (1 # 2); mkResponse "negative" (1 # 2) ].

Definition product_text : string := "This is an amazing and wonderful product".

(** [n] written in unary, to tell generated ids apart. *)
Fixpoint unary (n : nat) : string :=
  match n with
  | O => EmptyString
  | S m => String "i" (unary m)
  end.

Definition good : Analysis.t :=
  Analysis.mk Positive 0.9 (mkScores 0.9 0.05 0.05) [] "".

(** A service that always answers. *)
Definition env_ok : Env :=
  mkEnv (fun _ _ _ => inr good)
    (fun n => "result_" ++ unary n) (fun n => "batch_" ++ unary n)
    (fun n => Z.of_nat n).

(** A service whose second call fails. *)
Definition env_failing : Env :=
  mkEnv (fun _ n _ => if (n =? 1)%nat then inl (JsError Msg.rateLimit) else inr good)
    (fun n => "result_" ++ unary n) (fun n => "batch_" ++ unary n)
    (fun n => Z.of_nat n).

(** A batch of two texts, then a single analysis of the first text again. *)
Definition store : World :=
  run_all env_ok
    [ AnalyzeBatch ["good movie"; "fine film"] "t1" true;
      AnalyzeSingleText "good movie" true ].

(** A batch of one text. *)
Definition one_batch : World :=
  run_all env_ok [ AnalyzeBatch ["good movie"] "t1" true ].

(** A primary endpoint that answers 404 and a fallback that answers 429. *)
Definition fetch_404_then_429 (r : Request) : Thrown + HttpResponse :=
  if String.eqb (url r) HUGGINGFACE_API_URL
  then inr (mkHttpResponse 404 "Not Found" "")
  else inr (mkHttpResponse 429 "Too Many Requests" "").

End Sample.

(* ===================================================================== *)
(** ** Credential handling ([setApiKey], [validateApiKey])                *)
(* ===================================================================== *)

(** [setApiKey]: [this.apiKey = apiKey?.trim()]. *)
Definition setApiKey (apiKey : string) : option string := Some (Js.trim apiKey).

(** [validateApiKey] of the settings page. *)
Definition validateApiKey (key : string) : bool :=
  Js.startsWith (Js.trim key) "hf_" && (10 <? String.length (Js.trim key))%nat.

(* ===================================================================== *)
(** ** Request scheduler ([requestQueue], [processQueue])                 *)
(* ===================================================================== *)

Module Scheduler.

Section Queue.

(** The queued closures. *)
Variable Task : Type.

(** The [await] an activation of [processQueue] is suspended at. *)
Inductive Await : Type :=
| AwaitRequest (request : Task)   (* [await request()] *)
| AwaitDelay.                     (* [await new Promise(... setTimeout ...)] *)

Record t : Type := mk
  { requestQueue : list Task;
    isProcessing : bool;
    activations : list Await }.

Definition initial : t := mk [] false [].

(** What happens to the service: [analyzeSentiment] is called (the closure
    is pushed and [processQueue] invoked), the request an activation awaits
    settles, or the delay an activation awaits elapses. *)
Inductive Event : Type :=
| Call (request : Task)
| Settle (i : nat)
| Timeout (i : nat).

(** What can be observed of the requests. *)
Inductive Obs : Type :=
| Started (request : Task)
| Finished (request : Task)
| Waited.

Fixpoint set_nth {A} (i : nat) (x : A) (l : list A) : list A :=
  match l, i with
  | [], _ => []
  | _ :: rest, O => x :: rest
  | y :: rest, S j => y :: set_nth j x rest
  end.

Fixpoint remove_nth {A} (i : nat) (l : list A) : list A :=
  match l, i with
  | [], _ => []
  | _ :: rest, O => rest
  | y :: rest, S j => y :: remove_nth j rest
  end.

(** [processQueue] from its entry to its first [await] or its return. *)
Definition processQueue (s : t) : t * list Obs :=
  if isProcessing s || (List.length (requestQueue s) =? 0)%nat then (s, [])
  else
    match requestQueue s with
    | request :: rest =>
        (mk rest true (activations s ++ [AwaitRequest request]), [Started request])
    | [] => (mk [] false (activations s), [])
    end.

(** Activation [i] after its delay: the loop test, then either the next
    [shift] and request, or the end of the loop. *)
Definition resume (s : t) (i : nat) : t * list Obs :=
  match requestQueue s with
  | request :: rest =>
      (mk rest (isProcessing s) (set_nth i (AwaitRequest request) (activations s)),
       [Waited; Started request])
  | [] => (mk [] false (remove_nth i (activations s)), [Waited])
  end.

(** One event.  An event for an activation that does not await it changes
    nothing. *)
Definition step (s : t) (e : Event) : t * list Obs :=
  match e with
  | Call request =>
      processQueue
        (mk (requestQueue s ++ [request]) (isProcessing s) (activations s))
  | Settle i =>
      match nth_error (activations s) i with
      | Some (AwaitRequest request) =>
          (mk (requestQueue s) (isProcessing s)
              (set_nth i AwaitDelay (activations s)),
           [Finished request])
      | _ => (s, [])
      end
  | Timeout i =>
      match nth_error (activations s) i with
      | Some AwaitDelay => resume s i
      | _ => (s, [])
      end
  end.

(** A sequence of events from a state, with what it lets observe. *)
Fixpoint run (s : t) (events : list Event) : t * list Obs :=
  match events with
  | [] => (s, [])
  | e :: rest =>
      let (s1, o1) := step s e in
      let (s2, o2) := run s1 rest in
      (s2, (o1 ++ o2)%list)
  end.

(** The requests of the [Call] events, in order. *)
Definition calls (events : list Event) : list Task :=
  flat_map (fun e => match e with Call r => [r] | _ => [] end) events.

(** The requests started, in order. *)
Definition starts (obs : list Obs) : list Task :=
  flat_map (fun o => match o with Started r => [r] | _ => [] end) obs.

(** The flag tells whether an activation exists, there is at most one, and
    without one the queue is empty. *)
Definition sound (s : t) : Prop :=
  (List.length (activations s) <= 1)%nat
  /\ (isProcessing s = true <-> activations s <> [])
  /\ (isProcessing s = false -> requestQueue s = []).

(** What the single activation, if any, allows the last observation to be. *)
Definition agrees (s : t) (last : option Obs) : Prop :=
  match activations s, last with
  | [], None | [], Some Waited => True
  | [AwaitRequest r], Some (Started r') => True
  | [AwaitDelay], Some (Finished _) => True
  | _, _ => False
  end.

(** The last observation of a log that continues one ending in [last]. *)
Definition last_obs (last : option Obs) (obs : list Obs) : option Obs :=
  fold_left (fun _ o => Some o) obs last.

(** A log in which a request starts only at the beginning or right after a
    delay, a delay comes only right after the end of a request, and a
    request ends only right after a start. *)
Fixpoint paced (last : option Obs) (obs : list Obs) : Prop :=
  match obs with
  | [] => True
  | o :: rest =>
      match o, last with
      | Started _, None | Started _, Some Waited => True
      | Finished _, Some (Started _) => True
      | Waited, Some (Finished _) => True
      | _, _ => False
      end /\ paced (Some o) rest
  end.

End Queue.

Arguments AwaitDelay {Task}.
Arguments Waited {Task}.
Arguments initial {Task}.

End Scheduler.

(* ===================================================================== *)
(** ** Export service ([exportService.ts])                                *)
(* ===================================================================== *)

Module ExportService.

Inductive Format : Type := CSV | JSON | PDF.

Record ExportOptions : Type := mkOptions
  { format : Format;
    includeKeywords : bool;
    includeConfidence : bool;
    includeTimestamp : bool;
    dateRange : option (Z * Z) }.   (* start and end, as time values *)

Definition isWithinDateRange (result : SentimentResult.t)
    (dateRange : option (Z * Z)) : bool :=
  match dateRange with
  | None => true
  | Some (start, finish) =>
      ((start <=? SentimentResult.timestamp result)
       && (SentimentResult.timestamp result <=? finish))%Z
  end.

(** The accumulator of [calculateSummary]. *)
Record Counts : Type := mkCounts { positive : nat; negative : nat; neutral : nat }.

(** [acc[result.sentiment]++]. *)
Definition bump (acc : Counts) (result : SentimentResult.t) : Counts :=
  match SentimentResult.sentiment result with
  | Positive => mkCounts (S (positive acc)) (negative acc) (neutral acc)
  | Negative => mkCounts (positive acc) (S (negative acc)) (neutral acc)
  | Neutral => mkCounts (positive acc) (negative acc) (S (neutral acc))
  end.

Definition calculateSummary (results : list SentimentResult.t) : Counts :=
  fold_left bump results (mkCounts 0 0 0).

(** One element of [results] in the exported JSON document; [None] is a
    property that is not set. *)
Record Exported : Type := mkExported
  { id : string;
    text : string;
    sentiment : Sentiment;
    confidence : option Q;
    scores : option Scores;
    keywords : option (list Keyword);
    timestamp : option string }.

(** The object given to [JSON.stringify]. *)
Record Document : Type := mkDocument
  { exported_at : string;
    total_results : nat;
    results : list Exported }.

Section Json.

(** [Date.prototype.toISOString]. *)
Variable toISOString : Z -> string.

Definition export_one (options : ExportOptions) (result : SentimentResult.t)
  : Exported :=
  mkExported (SentimentResult.id result) (SentimentResult.text result)
    (SentimentResult.sentiment result)
    (if includeConfidence options
     then Some (SentimentResult.confidence result) else None)
    (if includeConfidence options
     then Some (SentimentResult.scores result) else None)
    (if includeKeywords options
     then Some (SentimentResult.keywords result) else None)
    (if includeTimestamp options
     then Some (toISOString (SentimentResult.timestamp result)) else None).

(** [exportToJSON] up to the call of [JSON.stringify]; [now] is the value of
    [new Date()]. *)
Definition exportToJSON (now : Z) (results : list SentimentResult.t)
    (options : ExportOptions) : Document :=
  let filteredResults :=
    map (export_one options)
      (filter (fun result => isWithinDateRange result (dateRange options))
         results) in
  mkDocument (toISOString now) (List.length filteredResults) filteredResults.

End Json.

End ExportService.

(* ===================================================================== *)
(** ** Vocabulary of the further properties                               *)
(* ===================================================================== *)

(** A score between 0 and 1. *)
Definition unit_score (q : Q) : Prop := 0 <= q /\ q <= 1.

(** Draws of [Math.random]: at least 0, below 1. *)
Definition unit_draws (random : nat -> Q) : Prop :=
  forall n, 0 <= random n /\ random n < 1.

(** The entries [analyzeBatch] analyses: the ones [trim] does not empty. *)
Definition non_blank (texts : list string) : list string :=
  filter (fun text => Js.truthy (Js.trim text)) texts.

(** A token of the text that one of the extractor's lexicons contains. *)
Definition lexicon_token (text : string) (w : string) : Prop :=
  In w (Js.match_words (Js.toLowerCase text))
  /\ (In w Extractor.positiveWords \/ In w Extractor.negativeWords).

(** What was last written to storage is the current pair of collections; a
    storage without the two records goes with empty collections. *)
Definition persisted (w : World) : Prop :=
  let results := AnalysisState.results (state w) in
  let batches := AnalysisState.batches (state w) in
  storage w = saveToLocalStorage results batches
  \/ (storage w = empty_storage /\ results = [] /\ batches = []).

(** The three counts of a batch summary. *)
Definition summary_counts (s : BatchResult.Summary) : ExportService.Counts :=
  ExportService.mkCounts (BatchResult.positiveCount s) (BatchResult.negativeCount s)
    (BatchResult.neutralCount s).

(** Every stored batch carries the summary of its own results. *)
Definition summarized (w : World) : Prop :=
  forall b, In b (AnalysisState.batches (state w)) ->
            BatchResult.summary b = summarize (BatchResult.results b).

(** The results [deleteBatch] keeps, given what [find] returned. *)
Definition cascade (found : option BatchResult.t)
    (results : list SentimentResult.t) : list SentimentResult.t :=
  match found with
  | Some batch =>
      filter
        (fun r =>
           negb (existsb
                   (fun br => String.eqb (SentimentResult.id br)
                                (SentimentResult.id r))
                   (BatchResult.results batch)))
        results
  | None => results
  end.

(* ===================================================================== *)
(** ** A fallback endpoint that answers with the client's own wording     *)
(* ===================================================================== *)

Module Echo.

(** The body [{"error":"Model not found. ..."}]. *)
Definition body : string :=
  "{" ++ Msg.dquote ++ "error" ++ Msg.dquote ++ ":" ++ Msg.dquote
    ++ Msg.modelNotFound ++ Msg.dquote ++ "}".

(** The primary endpoint answers 404, the fallback 500 with that body. *)
Definition fetch (r : Request) : Thrown + HttpResponse :=
  if String.eqb (url r) HUGGINGFACE_API_URL
  then inr (mkHttpResponse 404 "Not Found" "")
  else inr (mkHttpResponse 500 "Internal Server Error" body).

(** [JSON.parse] on the two bodies. *)
Definition JSON_parse (s : string) : option json :=
  if String.eqb s body then Some (JObj [("error", JStr Msg.modelNotFound)])
  else None.

(** The conversion to string, on strings. *)
Definition toString (v : json) : string :=
  match v with JStr s => s | _ => "" end.

End Echo.

(* ===================================================================== *)
(** ** Normalizer: what the loop computes                                 *)
(* ===================================================================== *)

Lemma Sentiment_eqb_eq a b : Sentiment_eqb a b = true <-> a = b.
Proof. destruct a, b; simpl; split; congruence. Qed.

Lemma Sentiment_eqb_refl a : Sentiment_eqb a a = true.
Proof. now destruct a. Qed.

Lemma Qlt_bool_iff a b : Qlt_bool a b = true <-> a < b.
Proof.
  unfold Qlt_bool. rewrite negb_true_iff.
  split.
  - intros H. apply Qnot_le_lt. intros Hle.
    apply Qle_bool_iff in Hle. congruence.
  - intros H. destruct (Qle_bool b a) eqn:E; [|reflexivity].
    apply Qle_bool_iff in E. exfalso. now apply (Qlt_not_le a b).
Qed.

Lemma Qlt_bool_false a b : Qlt_bool a b = false <-> b <= a.
Proof.
  unfold Qlt_bool. rewrite negb_false_iff. apply Qle_bool_iff.
Qed.

Lemma get_set_same sc s v : get_score (set_score sc s v) s = v.
Proof. now destruct s. Qed.

Lemma get_set_other sc s s' v :
  s <> s' -> get_score (set_score sc s v) s' = get_score sc s'.
Proof. destruct s, s'; simpl; congruence. Qed.

Lemma accumulate_snoc results r :
  accumulate_scores (results ++ [r]) = score_step (accumulate_scores results) r.
Proof. unfold accumulate_scores. now rewrite fold_left_app. Qed.

(** Each bucket holds the clamp of the last score written to it: an earlier
    score of the same bucket is overwritten. *)
Lemma accumulate_last_write results s :
  get_score (fst (accumulate_scores results)) s = last_score results s.
Proof.
  induction results as [|r results IH] using rev_ind.
  - now destruct s.
  - rewrite accumulate_snoc. unfold last_score in *.
    rewrite filter_app, rev_app_distr. simpl.
    destruct (accumulate_scores results) as [sc tot]. simpl in *.
    destruct (maps_to s r) eqn:E; unfold maps_to, bucket_of in E.
    + apply Sentiment_eqb_eq in E. subst s. simpl. apply get_set_same.
    + simpl. rewrite get_set_other; [exact IH|].
      intros Heq. rewrite Heq, Sentiment_eqb_refl in E. discriminate.
Qed.

Lemma clamp01_nonneg x : 0 <= clamp01 x.
Proof. unfold clamp01. apply Q.le_max_l. Qed.

(** [totalScore] is the sum of all clamped scores, whatever their bucket. *)
Lemma accumulate_total results :
  snd (accumulate_scores results) == clamped_total results.
Proof.
  induction results as [|r results IH] using rev_ind.
  - reflexivity.
  - rewrite accumulate_snoc.
    destruct (accumulate_scores results) as [sc tot]. simpl in *.
    rewrite get_set_same, IH. clear.
    induction results as [|x xs IHx]; simpl.
    + ring.
    + rewrite <- IHx. ring.
Qed.

(** Where the contract does hold: answers in which no two labels map to the
    same bucket. *)

Lemma filter_maps_to_nil results s :
  ~ In s (map bucket_of results) -> filter (maps_to s) results = [].
Proof.
  induction results as [|r results IH]; simpl; intros H; [reflexivity|].
  destruct (maps_to s r) eqn:E.
  - apply Sentiment_eqb_eq in E. tauto.
  - apply IH. tauto.
Qed.

Lemma last_score_nonneg results s : 0 <= last_score results s.
Proof.
  unfold last_score. destruct (rev (filter (maps_to s) results)).
  - apply Qle_refl.
  - apply clamp01_nonneg.
Qed.

Lemma score_sum_set sc s v :
  score_sum (set_score sc s v) == score_sum sc - get_score sc s + v.
Proof. destruct s; unfold score_sum; simpl; ring. Qed.

Lemma accumulate_sum_distinct results :
  distinct_buckets results ->
  score_sum (fst (accumulate_scores results)) == snd (accumulate_scores results).
Proof.
  unfold distinct_buckets.
  induction results as [|r results IH] using rev_ind; intros Hnd.
  - reflexivity.
  - rewrite map_app in Hnd. simpl in Hnd.
    apply NoDup_remove in Hnd. rewrite app_nil_r in Hnd.
    destruct Hnd as [Hnd Hnew]. specialize (IH Hnd).
    pose proof (accumulate_last_write results (bucket_of r)) as Hlast.
    unfold last_score in Hlast. rewrite (filter_maps_to_nil _ _ Hnew) in Hlast.
    simpl in Hlast.
    rewrite accumulate_snoc.
    destruct (accumulate_scores results) as [sc tot]. simpl in *.
    fold (bucket_of r). rewrite get_set_same, score_sum_set, Hlast, IH. ring.
Qed.

Lemma rescale_contract sc total :
  (forall s, 0 <= get_score sc s) ->
  score_sum sc == total ->
  (all_zero (rescale sc total) <-> total == 0)
  /\ (~ total == 0 -> sums_to_one (rescale sc total)).
Proof.
  intros Hpos Hsum.
  pose proof (Hpos Positive) as Hp. pose proof (Hpos Negative) as Hg.
  pose proof (Hpos Neutral) as Hu. unfold score_sum in Hsum.
  cbn [get_score] in Hp, Hg, Hu.
  unfold rescale, all_zero, sums_to_one, score_sum.
  destruct (Qlt_bool 0 total) eqn:E0;
    [apply Qlt_bool_iff in E0 | apply Qlt_bool_false in E0].
  - destruct (Qlt_bool (1 # 100) (Qabs (total - 1))) eqn:E1;
      [apply Qlt_bool_iff in E1 | apply Qlt_bool_false in E1];
      cbn [andb positive negative neutral].
    + assert (Hone : positive sc / total + negative sc / total
                     + neutral sc / total == 1).
      { rewrite <- Hsum. field. intros Hz. rewrite Hz in Hsum. lra. }
      split.
      * split; [intros (H1 & H2 & H3); lra | lra].
      * intros _. rewrite Hone. vm_compute. discriminate.
    + split.
      * split; [intros (H1 & H2 & H3); lra | lra].
      * intros _. rewrite Hsum. exact E1.
  - cbn [andb]. split.
    + split; [lra | intros _; lra].
    + intros Hne. exfalso. apply Hne. lra.
Qed.

(** With pairwise distinct buckets the normalizer keeps its contract. *)
Lemma normalizer_contract_distinct results :
  distinct_buckets results -> normalizer_contract results.
Proof.
  intros Hd. unfold normalizer_contract, normalize_scores.
  pose proof (accumulate_sum_distinct results Hd) as Hsum.
  pose proof (accumulate_total results) as Htot.
  assert (Hpos : forall s, 0 <= get_score (fst (accumulate_scores results)) s)
    by (intros s; rewrite accumulate_last_write; apply last_score_nonneg).
  destruct (accumulate_scores results) as [sc total]. simpl in *.
  destruct (rescale_contract sc total Hpos Hsum) as [Hz Hone].
  rewrite <- Htot. split; assumption.
Qed.

(** C1.  On the five star labels the fallback model answers with, the clamped
    scores sum to 1, yet the normalizer returns a triple whose sum is 5/8: it
    is neither within 0.01 of 1 nor all zeros, so the contract of the
    normalizer (sum 1 within tolerance, or all zeros exactly when the clamped
    input sums to 0) does not hold there. *)
Theorem normalize_star_answer_sum :
  clamped_total Sample.star_answer == 1
  /\ normalize_scores Sample.star_answer = mkScores (1 # 4) (1 # 8) (1 # 4)
  /\ score_sum (normalize_scores Sample.star_answer) == 5 # 8
  /\ ~ sums_to_one (normalize_scores Sample.star_answer)
  /\ ~ all_zero (normalize_scores Sample.star_answer)
  /\ ~ normalizer_contract Sample.star_answer.
Proof.
  assert (Ht : clamped_total Sample.star_answer == 1) by (vm_compute; reflexivity).
  assert (Hn : normalize_scores Sample.star_answer = mkScores (1 # 4) (1 # 8) (1 # 4))
    by (vm_compute; reflexivity).
  assert (Hs : ~ sums_to_one (normalize_scores Sample.star_answer)).
  { rewrite Hn. unfold sums_to_one. vm_compute. intros H. now apply H. }
  refine (conj Ht (conj Hn (conj _ (conj Hs (conj _ _))))).
  - rewrite Hn. vm_compute. reflexivity.
  - rewrite Hn. intros (H & _). vm_compute in H. discriminate.
  - intros [_ H]. apply Hs, H. rewrite Ht. intros H1. vm_compute in H1. discriminate.
Qed.

(** C2.  With two labels of one bucket, "4 stars" at 1/4 and "5 stars" at
    1/2, the positive bucket before rescaling is 1/2, the last score written,
    where the aggregation of the specification gives 3/4: the scores do not
    add, the later one overwrites the earlier. *)
Theorem accumulate_two_positive_overwrites :
  get_score (fst (accumulate_scores Sample.two_positive)) Positive = 1 # 2
  /\ bucket_sum_spec Sample.two_positive Positive == 3 # 4
  /\ ~ get_score (fst (accumulate_scores Sample.two_positive)) Positive
       == bucket_sum_spec Sample.two_positive Positive.
Proof.
  refine (conj _ (conj _ _)).
  - vm_compute. reflexivity.
  - vm_compute. reflexivity.
  - vm_compute. discriminate.
Qed.

(* ===================================================================== *)
(** ** Verdict                                                            *)
(* ===================================================================== *)

Lemma select_sentiment_unfold sc :
  select_sentiment sc = pick sc (pick sc Positive Negative) Neutral.
Proof. reflexivity. Qed.

(** The reduce keeps the later of two equal entries, so the verdict is the
    last maximum in key order. *)
Lemma select_sentiment_last_max sc : last_max sc (select_sentiment sc).
Proof.
  rewrite select_sentiment_unfold. unfold pick.
  destruct (Qlt_bool (get_score sc Negative) (get_score sc Positive)) eqn:E1;
    [apply Qlt_bool_iff in E1 | apply Qlt_bool_false in E1].
  - destruct (Qlt_bool (get_score sc Neutral) (get_score sc Positive)) eqn:E2;
      [apply Qlt_bool_iff in E2 | apply Qlt_bool_false in E2];
      (split; [intros [] | intros []; simpl; intros Hr; try lia]);
      simpl in *; lra.
  - destruct (Qlt_bool (get_score sc Neutral) (get_score sc Negative)) eqn:E2;
      [apply Qlt_bool_iff in E2 | apply Qlt_bool_false in E2];
      (split; [intros [] | intros []; simpl; intros Hr; try lia]);
      simpl in *; lra.
Qed.

(** C3, as amended.  For every answer of the classifier, and so for every
    normalized distribution whose maximum is attained more than once, the
    verdict of [analyzeSentiment] is the last maximum in the enumeration
    order positive, negative, neutral, and the confidence is its score. *)
Theorem analyzeSentiment_verdict_last_max
    (toFixed1 : Q -> string) (text : string)
    (results : list HuggingFaceResponse) :
  let a := analyzeSentiment_of toFixed1 text results in
  Analysis.scores a = normalize_scores results
  /\ last_max (Analysis.scores a) (Analysis.sentiment a)
  /\ Analysis.confidence a = get_score (Analysis.scores a) (Analysis.sentiment a).
Proof.
  simpl. refine (conj eq_refl (conj _ eq_refl)).
  apply select_sentiment_last_max.
Qed.

(** C3, as stated, fails: on an even split between positive and negative the
    maximum is attained twice and the verdict is negative, which is not the
    first maximum. *)
Lemma analyzeSentiment_verdict_not_first_max :
  let sc := normalize_scores Sample.even_split in
  tied sc
  /\ first_max sc Positive
  /\ select_sentiment sc = Negative
  /\ ~ first_max sc (select_sentiment sc).
Proof.
  assert (Hn : normalize_scores Sample.even_split = mkScores (1 # 2) (1 # 2) 0)
    by (vm_compute; reflexivity).
  simpl. rewrite Hn.
  assert (Hp : is_max (mkScores (1 # 2) (1 # 2) 0) Positive)
    by (intros []; vm_compute; discriminate).
  assert (Hg : is_max (mkScores (1 # 2) (1 # 2) 0) Negative)
    by (intros []; vm_compute; discriminate).
  refine (conj _ (conj (conj Hp _) (conj eq_refl _))).
  - exists Positive, Negative. refine (conj _ (conj Hp Hg)). discriminate.
  - intros []; simpl; intros Hr; lia.
  - intros [_ H]. specialize (H Positive). vm_compute in H.
    assert (Hlt : (0 < 1)%nat) by lia. specialize (H Hlt). discriminate.
Qed.

(* ===================================================================== *)
(** ** Keyword extractor                                                  *)
(* ===================================================================== *)

Section FindIndex.

Context {A : Type} (p : A -> bool).

Lemma findIndex_None l : Js.findIndex p l = None <-> existsb p l = false.
Proof.
  induction l as [|x l IH]; simpl.
  - tauto.
  - destruct (p x); simpl.
    + split; discriminate.
    + rewrite <- IH. destruct (Js.findIndex p l); simpl; split; congruence.
Qed.

Lemma findIndex_bound l j : Js.findIndex p l = Some j -> (j < List.length l)%nat.
Proof.
  revert j. induction l as [|x l IH]; simpl; intros j.
  - discriminate.
  - destruct (p x).
    + intros [= <-]. lia.
    + destruct (Js.findIndex p l) as [k|]; simpl; [|discriminate].
      intros [= <-]. specialize (IH k eq_refl). lia.
Qed.

Lemma findIndex_app_l l1 l2 j :
  Js.findIndex p l1 = Some j -> Js.findIndex p (l1 ++ l2) = Some j.
Proof.
  revert j. induction l1 as [|x l1 IH]; simpl; intros j.
  - discriminate.
  - destruct (p x); [trivial|].
    destruct (Js.findIndex p l1) as [k|]; simpl; [|discriminate].
    intros [= <-]. now rewrite (IH k eq_refl).
Qed.

Lemma findIndex_app_here l1 x l2 :
  Js.findIndex p l1 = None -> p x = true ->
  Js.findIndex p (l1 ++ x :: l2) = Some (List.length l1).
Proof.
  induction l1 as [|y l1 IH]; simpl; intros Hn Hx.
  - now rewrite Hx.
  - destruct (p y); [discriminate|].
    destruct (Js.findIndex p l1); [discriminate|].
    now rewrite IH.
Qed.

End FindIndex.

Lemma array_includes_In arr x : Js.array_includes arr x = true <-> In x arr.
Proof.
  unfold Js.array_includes. rewrite existsb_exists. split.
  - intros (y & Hy & E). apply String.eqb_eq in E. now subst.
  - intros H. exists x. split; [assumption | apply String.eqb_refl].
Qed.

Lemma array_includes_false arr x : Js.array_includes arr x = false <-> ~ In x arr.
Proof.
  rewrite <- array_includes_In. destruct (Js.array_includes arr x); split;
    congruence.
Qed.

Lemma existsb_word_In pre w :
  existsb (fun k => String.eqb (word k) w) pre = true <-> In w (map word pre).
Proof.
  rewrite existsb_exists, in_map_iff. split.
  - intros (k & Hk & E). apply String.eqb_eq in E. now exists k.
  - intros (k & E & Hk). exists k. split; [assumption|].
    now apply String.eqb_eq.
Qed.

Lemma filter_first_index pre suf seen :
  (forall x, In x seen <-> In x (map word pre)) ->
  Js.filter_indexed_from (is_first_index (pre ++ suf)) (List.length pre) suf
  = first_occurrences seen suf.
Proof.
  revert pre seen. induction suf as [|k rest IH]; intros pre seen Hseen.
  - reflexivity.
  - simpl. unfold is_first_index at 1.
    assert (Hnext : (pre ++ k :: rest = (pre ++ [k]) ++ rest)%list)
      by now rewrite <- app_assoc.
    assert (Hlen : S (List.length pre) = List.length (pre ++ [k])%list)
      by (rewrite length_app; simpl; lia).
    destruct (Js.findIndex (fun k0 => String.eqb (word k0) (word k)) pre)
      as [j|] eqn:Ef.
    + rewrite (findIndex_app_l _ _ _ _ Ef).
      pose proof (findIndex_bound _ _ _ Ef) as Hj.
      assert (Hin : In (word k) (map word pre)).
      { apply existsb_word_In. destruct (existsb _ pre) eqn:Ex; [reflexivity|].
        apply findIndex_None in Ex. congruence. }
      replace (List.length pre =? j)%nat with false
        by (symmetry; apply Nat.eqb_neq; lia).
      replace (Js.array_includes seen (word k)) with true
        by (symmetry; apply array_includes_In, Hseen, Hin).
      rewrite Hnext, Hlen. apply IH.
      intros x. rewrite Hseen, map_app, in_app_iff. simpl.
      intuition (subst; auto).
    + rewrite (findIndex_app_here _ _ _ _ Ef (String.eqb_refl _)).
      rewrite Nat.eqb_refl.
      assert (Hnin : ~ In (word k) (map word pre)).
      { intros Hin. apply existsb_word_In in Hin.
        apply findIndex_None in Ef. congruence. }
      replace (Js.array_includes seen (word k)) with false
        by (symmetry; apply array_includes_false; now rewrite Hseen).
      f_equal. rewrite Hnext, Hlen. apply IH.
      intros x. rewrite map_app, in_app_iff. simpl. rewrite <- Hseen.
      intuition.
Qed.

(** The index test of the source keeps exactly the first occurrence of each
    word, in scan order. *)
Lemma uniqueKeywords_first_occurrences ks :
  uniqueKeywords ks = first_occurrences [] ks.
Proof.
  apply (filter_first_index [] ks []). intros x. reflexivity.
Qed.

Lemma first_occurrences_incl seen ks k :
  In k (first_occurrences seen ks) -> In k ks /\ ~ In (word k) seen.
Proof.
  revert seen. induction ks as [|x ks IH]; simpl; intros seen; [tauto|].
  destruct (Js.array_includes seen (word x)) eqn:E.
  - intros H. apply IH in H. tauto.
  - apply array_includes_false in E. intros [<- | H]; [tauto|].
    apply IH in H. simpl in H. tauto.
Qed.

Lemma first_occurrences_NoDup seen ks :
  NoDup (map word (first_occurrences seen ks)).
Proof.
  revert seen. induction ks as [|x ks IH]; simpl; intros seen.
  - constructor.
  - destruct (Js.array_includes seen (word x)); [apply IH|].
    simpl. constructor; [|apply IH].
    rewrite in_map_iff. intros (k & E & Hk).
    apply first_occurrences_incl in Hk. simpl in Hk. intuition.
Qed.

Lemma collect_keywords_entry words k :
  In k (collect_keywords words) -> weight k = 0.8 /\ lexicon_entry k.
Proof.
  unfold collect_keywords. rewrite in_flat_map. intros (w & _ & Hk).
  unfold keyword_of_word, lexicon_entry in *.
  destruct (Js.array_includes Extractor.positiveWords w) eqn:Ep.
  - destruct Hk as [<- | []]. apply array_includes_In in Ep. simpl. auto.
  - destruct (Js.array_includes Extractor.negativeWords w) eqn:En.
    + destruct Hk as [<- | []]. apply array_includes_In in En. simpl. auto.
    + destruct Hk.
Qed.

Lemma In_firstn {A} n (l : list A) x : In x (firstn n l) -> In x l.
Proof.
  intros H. rewrite <- (firstn_skipn n l). apply in_or_app. now left.
Qed.

Lemma NoDup_firstn {A} n (l : list A) : NoDup l -> NoDup (firstn n l).
Proof.
  intros H. rewrite <- (firstn_skipn n l) in H.
  now apply NoDup_app_remove_r in H.
Qed.

(** C8.  For every text and verdict argument, [extractKeywords] returns at
    most 5 entries, no two with the same word, the kept entry of a word being
    its first occurrence in scan order; every entry carries the sentiment of
    the lexicon its word is in and the weight 0.8; the verdict argument does
    not change the output; and on "This is an amazing and wonderful product"
    the output is the two entries for "amazing" and "wonderful". *)
Theorem extractKeywords_contract (text : string) (sentiment : Sentiment) :
  let out := extractKeywords text sentiment in
  (List.length out <= 5)%nat
  /\ NoDup (map word out)
  /\ out = firstn 5 (first_occurrences []
             (collect_keywords (Js.match_words (Js.toLowerCase text))))
  /\ (forall k, In k out -> weight k = 0.8 /\ lexicon_entry k)
  /\ (forall sentiment', extractKeywords text sentiment' = out)
  /\ extractKeywords Sample.product_text sentiment
     = [mkKeyword "amazing" Positive 0.8; mkKeyword "wonderful" Positive 0.8].
Proof.
  unfold extractKeywords. cbv zeta.
  rewrite uniqueKeywords_first_occurrences.
  refine (conj _ (conj _ (conj eq_refl (conj _ (conj _ _))))).
  - rewrite length_firstn. lia.
  - rewrite <- firstn_map. apply NoDup_firstn, first_occurrences_NoDup.
  - intros k Hk. apply In_firstn, first_occurrences_incl in Hk.
    now apply collect_keywords_entry with (words := Js.match_words (Js.toLowerCase text)).
  - reflexivity.
  - vm_compute. reflexivity.
Qed.

(* ===================================================================== *)
(** ** Demo simulator                                                     *)
(* ===================================================================== *)

Lemma count_step_fold words p n :
  fold_left Demo.count_step words (p, n)
  = ((p + List.length (filter (Js.array_includes Demo.positiveWords) words))%nat,
     (n + List.length (filter (Js.array_includes Demo.negativeWords) words))%nat).
Proof.
  revert p n. induction words as [|w words IH]; intros p n.
  - simpl. f_equal; lia.
  - cbn [fold_left filter]. unfold Demo.count_step at 2.
    destruct (Js.array_includes Demo.positiveWords w),
             (Js.array_includes Demo.negativeWords w);
      rewrite IH; simpl; f_equal; lia.
Qed.

(** The loop counts the hits in the simulator's own two lists. *)
Lemma hit_counts_lexicon text :
  Demo.hit_counts text
  = lexicon_hits Demo.positiveWords Demo.negativeWords text.
Proof.
  unfold Demo.hit_counts, lexicon_hits. now rewrite count_step_fold.
Qed.

Lemma analyzeSentimentDemo_verdict toFixed1 random text :
  let a := analyzeSentimentDemo toFixed1 random text in
  let (p, n) := Demo.hit_counts text in
  (Analysis.sentiment a, Analysis.confidence a)
  = fst (Demo.verdict random p n).
Proof.
  unfold analyzeSentimentDemo.
  destruct (Demo.hit_counts text) as [p n].
  destruct (Demo.verdict random p n) as [[s c] k].
  destruct (Demo.bucket random s c Positive k) as [x1 k1].
  destruct (Demo.bucket random s c Negative k1) as [x2 k2].
  destruct (Demo.bucket random s c Neutral k2) as [x3 k3].
  reflexivity.
Qed.

(** C9, as amended.  For every text, [analyzeSentimentDemo] counts the hits
    in its own positive and negative word lists, which are the first 18
    entries of the Keyword Extractor's lists of 26; when the positive hits
    exceed the negative ones the verdict is positive with confidence
    min(0.65 + 0.08 x positive hits, 0.92), symmetrically for negative, and
    equal counts, both zero included, give a neutral verdict. *)
Theorem analyzeSentimentDemo_verdict_rule
    (toFixed1 : Q -> string) (random : nat -> Q) (text : string) :
  let a := analyzeSentimentDemo toFixed1 random text in
  let p := fst (lexicon_hits Demo.positiveWords Demo.negativeWords text) in
  let n := snd (lexicon_hits Demo.positiveWords Demo.negativeWords text) in
  Demo.positiveWords = firstn 18 Extractor.positiveWords
  /\ Demo.negativeWords = firstn 18 Extractor.negativeWords
  /\ Demo.hit_counts text = (p, n)
  /\ ((n < p)%nat ->
      Analysis.sentiment a = Positive
      /\ Analysis.confidence a == Qmin (0.65 + 0.08 * Demo.of_count p) 0.92)
  /\ ((p < n)%nat ->
      Analysis.sentiment a = Negative
      /\ Analysis.confidence a == Qmin (0.65 + 0.08 * Demo.of_count n) 0.92)
  /\ (p = n -> Analysis.sentiment a = Neutral).
Proof.
  intros a p n.
  pose proof (analyzeSentimentDemo_verdict toFixed1 random text) as Hv.
  cbv zeta in Hv. fold a in Hv.
  rewrite hit_counts_lexicon in *.
  destruct (lexicon_hits Demo.positiveWords Demo.negativeWords text) as [p0 n0]
    eqn:Eh.
  subst p n. cbn [fst snd].
  assert (Hs : Analysis.sentiment a = fst (fst (Demo.verdict random p0 n0)))
    by (change (Analysis.sentiment a)
          with (fst (Analysis.sentiment a, Analysis.confidence a));
        now rewrite Hv).
  assert (Hc : Analysis.confidence a = snd (fst (Demo.verdict random p0 n0)))
    by (change (Analysis.confidence a)
          with (snd (Analysis.sentiment a, Analysis.confidence a));
        now rewrite Hv).
  refine (conj eq_refl (conj eq_refl (conj eq_refl (conj _ (conj _ _))))).
  - intros Hlt. rewrite Hs, Hc. unfold Demo.verdict.
    replace (n0 <? p0)%nat with true by (symmetry; apply Nat.ltb_lt; lia).
    cbn [fst snd]. split; [reflexivity|].
    now rewrite (Qmult_comm (Demo.of_count p0)).
  - intros Hlt. rewrite Hs, Hc. unfold Demo.verdict.
    replace (n0 <? p0)%nat with false by (symmetry; apply Nat.ltb_ge; lia).
    replace (p0 <? n0)%nat with true by (symmetry; apply Nat.ltb_lt; lia).
    cbn [fst snd]. split; [reflexivity|].
    now rewrite (Qmult_comm (Demo.of_count n0)).
  - intros ->. rewrite Hs. unfold Demo.verdict.
    now rewrite Nat.ltb_irrefl.
Qed.

(** A text with three positive hits and one negative hit. *)
Lemma analyzeSentimentDemo_verdict_rule_witness :
  Analysis.sentiment
    (analyzeSentimentDemo (fun _ => "") (fun _ => 1 # 2)
       "Great, amazing and wonderful; not bad") = Positive
  /\ Analysis.confidence
       (analyzeSentimentDemo (fun _ => "") (fun _ => 1 # 2)
          "Great, amazing and wonderful; not bad")
     == Qmin (0.65 + 0.08 * Demo.of_count 3) 0.92.
Proof.
  apply (analyzeSentimentDemo_verdict_rule (fun _ => "") (fun _ => 1 # 2)
           "Great, amazing and wonderful; not bad").
  vm_compute. lia.
Defined.

(** C9, as stated, fails: "nice" is in the extractor's positive list and not
    in the simulator's, so the simulator counts no hit and answers neutral
    where the extractor's lists give one positive hit. *)
Lemma analyzeSentimentDemo_lists_differ :
  Demo.positiveWords <> Extractor.positiveWords
  /\ Demo.negativeWords <> Extractor.negativeWords
  /\ lexicon_hits Extractor.positiveWords Extractor.negativeWords "nice"
     = (1%nat, 0%nat)
  /\ Demo.hit_counts "nice" = (0%nat, 0%nat)
  /\ extractKeywords "nice" Neutral = [mkKeyword "nice" Positive 0.8]
  /\ Analysis.sentiment (analyzeSentimentDemo (fun _ => "") (fun _ => 0) "nice")
     = Neutral.
Proof.
  refine (conj _ (conj _ (conj eq_refl (conj eq_refl (conj eq_refl eq_refl)))));
    discriminate.
Qed.

(* ===================================================================== *)
(** ** Inference client: failover on 404                                  *)
(* ===================================================================== *)

Section Failover.

Variable apiKey : option string.
Variable fetch : Request -> Thrown + HttpResponse.
Variable JSON_parse : string -> option json.
Variable toString : json -> string.
Variable nullReadMessage : string.

Abbreviation call := (makeApiCall apiKey fetch JSON_parse toString nullReadMessage).
Abbreviation request := (request_for apiKey).

Lemma not_ok_404 response : status response = 404%Z -> ok response = false.
Proof. unfold ok. intros ->. reflexivity. Qed.

(** A call on the fallback endpoint never recurses: one request, and the
    outcome of the [try] block behind the [catch] block. *)
Lemma makeApiCall_fallback text :
  check_key apiKey = None ->
  call text true =
  ([request text true],
   match fetch (request text true) with
   | inl e => inl (on_catch e)
   | inr response =>
       if negb (ok response) then
         if (status response =? 404)%Z then inl (JsError Msg.modelNotFound)
         else inl (on_catch (status_error JSON_parse toString response))
       else settle (read_body JSON_parse nullReadMessage response)
   end).
Proof.
  intros Hkey. simp makeApiCall. rewrite Hkey. simpl.
  destruct (fetch (request text true)) as [e|response] eqn:Ef; simpl.
  - reflexivity.
  - unfold on_response.
    destruct (negb (ok response)); simpl; [|reflexivity].
    destruct (status response =? 404)%Z; reflexivity.
Qed.

Lemma on_catch_status_error response :
  on_catch (status_error JSON_parse toString response)
  = status_error JSON_parse toString response.
Proof.
  unfold status_error.
  repeat match goal with |- context [if ?c then _ else _] => destruct c end;
    reflexivity.
Qed.

Lemma on_response_404_primary response :
  status response = 404%Z ->
  on_response JSON_parse toString nullReadMessage response false
  = TryFallback eq_refl.
Proof.
  intros H. unfold on_response. rewrite (not_ok_404 _ H), H. reflexivity.
Qed.

(** After a 404 of the primary endpoint the call is the fallback call with
    the primary request in front. *)
Lemma makeApiCall_primary_404 text r1 :
  check_key apiKey = None ->
  fetch (request text false) = inr r1 ->
  status r1 = 404%Z ->
  call text false = sent (request text false) (call text true).
Proof.
  intros Hkey Hf H404. rewrite (makeApiCall_equation_1 _ _ _ _ _ text false).
  rewrite Hkey. simpl. rewrite Hf. simpl.
  rewrite (on_response_404_primary _ H404). reflexivity.
Qed.




End Failover.



(* ===================================================================== *)
(** ** Orchestrator: batches                                              *)
(* ===================================================================== *)

Lemma trimStart_blank text : blank text -> Js.trimStart text = "".
Proof.
  unfold blank. induction text as [|c text IH]; simpl; intros H.
  - reflexivity.
  - inversion H as [|? ? Hc Ht]; subst. rewrite Hc. now apply IH.
Qed.

Lemma trim_blank text : blank text -> Js.trim text = "".
Proof. intros H. unfold Js.trim. now rewrite trimStart_blank. Qed.

(** The loop only moves the progress field of the state. *)
Lemma batch_loop_state env useDemo total texts i results st n :
  let st' := snd (fst (batch_loop env useDemo total texts i results st n)) in
  AnalysisState.results st' = AnalysisState.results st
  /\ AnalysisState.batches st' = AnalysisState.batches st
  /\ AnalysisState.isLoading st' = AnalysisState.isLoading st
  /\ AnalysisState.error st' = AnalysisState.error st.
Proof.
  revert i results st n.
  induction texts as [|text rest IH]; intros i results st n; simpl.
  - auto.
  - destruct (Js.truthy (Js.trim text)).
    + destruct (analyze env useDemo n text) as [e|a]; simpl; [auto|].
      apply (IH (S i) _ (set_progress st _) (S n)).
    + apply (IH (S i) _ (set_progress st _) n).
Qed.

(** The loop stops at the first analysis that fails, with its error. *)
Lemma batch_loop_first_failure env useDemo total texts i results st n error :
  first_failure env useDemo texts n = Some error ->
  fst (fst (batch_loop env useDemo total texts i results st n)) = inl error.
Proof.
  revert i results st n.
  induction texts as [|text rest IH]; intros i results st n; simpl.
  - discriminate.
  - destruct (Js.truthy (Js.trim text)).
    + destruct (analyze env useDemo n text) as [e|a]; simpl.
      * now intros [= ->].
      * apply IH.
    + apply IH.
Qed.

(** Without a failing analysis the loop runs to its end. *)
Lemma batch_loop_no_failure env useDemo total texts i results st n :
  first_failure env useDemo texts n = None ->
  exists results',
    fst (fst (batch_loop env useDemo total texts i results st n)) = inr results'.
Proof.
  revert i results st n.
  induction texts as [|text rest IH]; intros i results st n; simpl.
  - intros _. now exists results.
  - destruct (Js.truthy (Js.trim text)).
    + destruct (analyze env useDemo n text) as [e|a]; simpl.
      * discriminate.
      * apply IH.
    + apply IH.
Qed.

(** C6.  If an analysis inside [analyzeBatch] fails, the call rejects with
    that error; no batch is created and no result of the batch is stored or
    persisted: the result collection, the batch collection and the storage
    are exactly as before the call, the loading flag is cleared and the
    message of the error is recorded in the state. *)
Theorem analyzeBatch_all_or_nothing (env : Env) (texts : list string)
    (batchName : string) (useDemo : bool) (w : World) (error : Thrown) :
  first_failure env useDemo texts (tick w) = Some error ->
  let out := analyzeBatch env texts batchName useDemo w in
  fst out = inl error
  /\ AnalysisState.results (state (snd out)) = AnalysisState.results (state w)
  /\ AnalysisState.batches (state (snd out)) = AnalysisState.batches (state w)
  /\ storage (snd out) = storage w
  /\ AnalysisState.isLoading (state (snd out)) = false
  /\ AnalysisState.error (state (snd out))
     = Some (message_or "Batch analysis failed" error).
Proof.
  intros Hfail. unfold analyzeBatch.
  pose proof (batch_loop_first_failure env useDemo (List.length texts) texts 0
                [] (start_loading (state w)) (tick w) error Hfail) as Hout.
  pose proof (batch_loop_state env useDemo (List.length texts) texts 0
                [] (start_loading (state w)) (tick w)) as Hst.
  destruct (batch_loop env useDemo (List.length texts) texts 0 []
              (start_loading (state w)) (tick w)) as [[r st] n].
  simpl in Hout, Hst. subst r. simpl.
  destruct Hst as (Hr & Hb & _ & _).
  exact (conj eq_refl (conj Hr (conj Hb (conj eq_refl (conj eq_refl eq_refl))))).
Qed.

(** The second of three analyses fails: nothing of the batch is kept. *)
Lemma analyzeBatch_all_or_nothing_witness :
  let out := analyzeBatch Sample.env_failing
               ["good movie"; "terrible film"; "fine"] "t1" false empty_world in
  fst out = inl (JsError Msg.rateLimit)
  /\ AnalysisState.results (state (snd out)) = []
  /\ AnalysisState.batches (state (snd out)) = []
  /\ storage (snd out) = empty_storage
  /\ AnalysisState.isLoading (state (snd out)) = false
  /\ AnalysisState.error (state (snd out)) = Some Msg.rateLimit.
Proof.
  apply (analyzeBatch_all_or_nothing Sample.env_failing
           ["good movie"; "terrible film"; "fine"] "t1" false empty_world
           (JsError Msg.rateLimit)).
  reflexivity.
Defined.

Lemma batch_loop_blank env useDemo total texts i results st n :
  Forall blank texts ->
  fst (fst (batch_loop env useDemo total texts i results st n)) = inr results
  /\ snd (batch_loop env useDemo total texts i results st n) = n.
Proof.
  revert i results st n.
  induction texts as [|text rest IH]; intros i results st n H; simpl.
  - auto.
  - inversion H as [|? ? Hb Hrest]; subst.
    rewrite (trim_blank _ Hb). simpl. now apply IH.
Qed.

(** C10.  If the list given to [analyzeBatch] is not empty and every entry
    is blank, the call still succeeds: it creates a batch without results,
    whose summary has [totalTexts] 0, the three counts 0 and, as
    [averageConfidence], the quotient 0 / 0, which is NaN; the batch is put in
    front of the batch collection and persisted. *)
Theorem analyzeBatch_all_blank (env : Env) (texts : list string)
    (batchName : string) (useDemo : bool) (w : World) :
  texts <> [] ->
  Forall blank texts ->
  let out := analyzeBatch env texts batchName useDemo w in
  exists batch,
    fst out = inr batch
    /\ BatchResult.name batch = batchName
    /\ BatchResult.results batch = []
    /\ BatchResult.summary batch = BatchResult.mkSummary 0 0 0 0 (Js.div 0 0)
    /\ Js.div 0 0 = Js.NaN
    /\ AnalysisState.batches (state (snd out))
       = batch :: AnalysisState.batches (state w)
    /\ AnalysisState.results (state (snd out)) = AnalysisState.results (state w)
    /\ sentimentBatches (storage (snd out))
       = Some (batch :: AnalysisState.batches (state w)).
Proof.
  intros _ Hblank. unfold analyzeBatch.
  pose proof (batch_loop_blank env useDemo (List.length texts) texts 0
                [] (start_loading (state w)) (tick w) Hblank) as [Hout Hn].
  pose proof (batch_loop_state env useDemo (List.length texts) texts 0
                [] (start_loading (state w)) (tick w)) as Hst.
  destruct (batch_loop env useDemo (List.length texts) texts 0 []
              (start_loading (state w)) (tick w)) as [[r st] n].
  simpl in Hout, Hn, Hst. subst r n. simpl.
  destruct Hst as (Hr & Hb & _ & _). rewrite Hr, Hb.
  eexists. repeat (split; [reflexivity|]). reflexivity.
Qed.

(** Two blank entries. *)
Lemma analyzeBatch_all_blank_witness :
  exists batch,
    fst (analyzeBatch Sample.env_ok ["   "; ""] "empty" true empty_world)
    = inr batch
    /\ BatchResult.summary batch = BatchResult.mkSummary 0 0 0 0 Js.NaN
    /\ sentimentBatches
         (storage (snd (analyzeBatch Sample.env_ok ["   "; ""] "empty" true
                          empty_world)))
       = Some [batch].
Proof.
  destruct (analyzeBatch_all_blank Sample.env_ok ["   "; ""] "empty" true
              empty_world) as (batch & H1 & _ & _ & H4 & _ & _ & _ & H8).
  - discriminate.
  - repeat constructor.
  - exists batch. auto.
Defined.

(* ===================================================================== *)
(** ** Orchestrator: deletion                                             *)
(* ===================================================================== *)

Lemma existsb_id_In members r :
  existsb (fun br => String.eqb (SentimentResult.id br) (SentimentResult.id r))
    members = true
  <-> In (SentimentResult.id r) (map SentimentResult.id members).
Proof.
  rewrite existsb_exists, in_map_iff. split.
  - intros (br & Hbr & E). apply String.eqb_eq in E. now exists br.
  - intros (br & E & Hbr). exists br. split; [assumption|].
    now apply String.eqb_eq.
Qed.

(** The results [deleteBatch] keeps when it finds the batch. *)
Lemma cascade_filter_In batch results r :
  In r (filter
          (fun r =>
             negb (existsb
                     (fun br => String.eqb (SentimentResult.id br)
                                  (SentimentResult.id r))
                     (BatchResult.results batch)))
          results)
  <-> In r results /\ ~ In (SentimentResult.id r) (member_ids batch).
Proof.
  rewrite filter_In, negb_true_iff. unfold member_ids.
  rewrite <- existsb_id_In.
  destruct (existsb _ (BatchResult.results batch)); intuition congruence.
Qed.

Lemma other_batches_In id batches b :
  In b (filter (fun b => negb (String.eqb (BatchResult.id b) id)) batches)
  <-> In b batches /\ BatchResult.id b <> id.
Proof.
  rewrite filter_In, negb_true_iff, String.eqb_neq. tauto.
Qed.

(** C5.  For every state and every batch id present in it, [deleteBatch]
    removes the batch found under that id and removes exactly the results
    whose id is a member of that batch; every other result stays, whatever
    its text, also when it equals the text of a removed member; the batches
    with another id are kept as they are, in their order. *)
Theorem deleteBatch_cascade (id : string) (w : World) (batch : BatchResult.t) :
  find (fun b => String.eqb (BatchResult.id b) id)
    (AnalysisState.batches (state w)) = Some batch ->
  let w' := deleteBatch id w in
  ~ In batch (AnalysisState.batches (state w'))
  /\ AnalysisState.batches (state w')
     = filter (fun b => negb (String.eqb (BatchResult.id b) id))
         (AnalysisState.batches (state w))
  /\ (forall b, BatchResult.id b <> id ->
        (In b (AnalysisState.batches (state w'))
         <-> In b (AnalysisState.batches (state w))))
  /\ (forall r,
        In r (AnalysisState.results (state w'))
        <-> In r (AnalysisState.results (state w))
            /\ ~ In (SentimentResult.id r) (member_ids batch))
  /\ (forall r member,
        In r (AnalysisState.results (state w)) ->
        In member (BatchResult.results batch) ->
        SentimentResult.text r = SentimentResult.text member ->
        ~ In (SentimentResult.id r) (member_ids batch) ->
        In r (AnalysisState.results (state w')))
  /\ storage w'
     = saveToLocalStorage (AnalysisState.results (state w'))
         (AnalysisState.batches (state w')).
Proof.
  intros Hfind. unfold deleteBatch. rewrite Hfind. cbn [state storage].
  unfold with_collections.
  cbn [AnalysisState.results AnalysisState.batches].
  apply find_some in Hfind. destruct Hfind as [Hin Hid].
  apply String.eqb_eq in Hid.
  refine (conj _ (conj eq_refl (conj _ (conj _ (conj _ eq_refl))))).
  - rewrite other_batches_In. tauto.
  - intros b Hb. rewrite other_batches_In. tauto.
  - intros r. apply cascade_filter_In.
  - intros r member Hr _ _ Hn. apply cascade_filter_In. tauto.
Qed.

(* ===================================================================== *)
(** ** Orchestrator: the invariant of the store                           *)
(* ===================================================================== *)

Lemma ForallOrdPairs_filter {A} (R : A -> A -> Prop) (f : A -> bool) l :
  ForallOrdPairs R l -> ForallOrdPairs R (filter f l).
Proof.
  induction 1 as [|a l Ha Hl IH]; simpl.
  - constructor.
  - destruct (f a); [|exact IH].
    constructor; [|exact IH].
    rewrite Forall_forall in *. intros x Hx. apply filter_In in Hx.
    now apply Ha.
Qed.

Lemma deleted_result_ids i results j :
  In j (map SentimentResult.id
          (filter (fun r => negb (String.eqb (SentimentResult.id r) i)) results))
  <-> In j (map SentimentResult.id results) /\ j <> i.
Proof.
  rewrite !in_map_iff. split.
  - intros (r & <- & Hr). apply filter_In in Hr. destruct Hr as [Hr Hne].
    apply negb_true_iff, String.eqb_neq in Hne. split; [now exists r | assumption].
  - intros [(r & <- & Hr) Hne]. exists r. split; [reflexivity|].
    apply filter_In. split; [assumption|].
    now apply negb_true_iff, String.eqb_neq.
Qed.

(** The results the loop adds carry the ids generated during the loop. *)
Lemma batch_loop_ids env useDemo total texts i results st n :
  let out := batch_loop env useDemo total texts i results st n in
  (n <= snd out)%nat
  /\ forall results', fst (fst out) = inr results' ->
       exists new,
         results' = (results ++ new)%list
         /\ forall r, In r new ->
              exists k, (n <= k < snd out)%nat
                        /\ SentimentResult.id r = result_id env k.
Proof.
  revert i results st n.
  induction texts as [|text rest IH]; intros i results st n; simpl.
  - split; [lia|]. intros results' [= <-]. exists []. rewrite app_nil_r.
    split; [reflexivity|]. intros r [].
  - destruct (Js.truthy (Js.trim text)).
    + destruct (analyze env useDemo n text) as [e|a]; simpl.
      * split; [lia|]. discriminate.
      * specialize (IH (S i) (results ++ [build_result env n text a])%list
                      (set_progress st (of_nat (i + 1) / of_nat total * 100))
                      (S n)).
        simpl in IH. destruct IH as [Hle IH]. split; [lia|].
        intros results' Hout. destruct (IH results' Hout) as (new & -> & Hnew).
        exists (build_result env n text a :: new). rewrite <- app_assoc.
        split; [reflexivity|].
        intros r [<- | Hr].
        -- exists n. simpl. split; [lia | reflexivity].
        -- destruct (Hnew r Hr) as (k & Hk & E). exists k. split; [lia | exact E].
    + apply IH.
Qed.

Section Invariant.

Variable env : Env.
Hypothesis fresh : fresh_ids env.

Lemma consistent_empty : consistent env empty_world.
Proof.
  refine (conj _ (conj _ _)).
  - intros b i [].
  - intros b i [].
  - constructor.
Qed.

Lemma consistent_analyzeSingleText text useDemo w :
  consistent env w -> consistent env (snd (analyzeSingleText env text useDemo w)).
Proof.
  intros (Hp & Hi & Ha). unfold analyzeSingleText.
  destruct (analyze env useDemo (tick w) text) as [e|a]; simpl.
  - refine (conj _ (conj _ _)).
    + exact Hp.
    + intros b i Hb Hm. destruct (Hi b i Hb Hm) as (k & Hk & E).
      exists k. simpl. split; [lia | exact E].
    + exact Ha.
  - refine (conj _ (conj _ _)).
    + intros b i Hb Hm. right. exact (Hp b i Hb Hm).
    + intros b i Hb Hm. destruct (Hi b i Hb Hm) as (k & Hk & E).
      exists k. simpl. split; [lia | exact E].
    + exact Ha.
Qed.

Lemma consistent_analyzeBatch texts batchName useDemo w :
  consistent env w ->
  consistent env (snd (analyzeBatch env texts batchName useDemo w)).
Proof.
  intros (Hp & Hi & Ha). unfold analyzeBatch.
  pose proof (batch_loop_state env useDemo (List.length texts) texts 0
                [] (start_loading (state w)) (tick w)) as Hst.
  pose proof (batch_loop_ids env useDemo (List.length texts) texts 0
                [] (start_loading (state w)) (tick w)) as Hids.
  destruct (batch_loop env useDemo (List.length texts) texts 0 []
              (start_loading (state w)) (tick w)) as [[out st] n].
  simpl in Hst, Hids. destruct Hst as (Hr & Hb & _ & _).
  destruct Hids as [Hle Hnew].
  destruct out as [e|results];
    unfold consistent, batch_members_present, issued, batches_apart, result_ids;
    simpl; rewrite ?Hr, ?Hb.
  - refine (conj Hp (conj _ Ha)).
    intros b i Hin Hm. destruct (Hi b i Hin Hm) as (k & Hk & E).
    exists k. split; [lia | exact E].
  - destruct (Hnew results eq_refl) as (new & -> & Hgen). simpl in *.
    refine (conj _ (conj _ _)).
    + intros b i Hin Hm. rewrite map_app, in_app_iff.
      destruct Hin as [<- | Hin].
      * left. exact Hm.
      * right. exact (Hp b i Hin Hm).
    + intros b i Hin Hm. destruct Hin as [<- | Hin].
      * unfold member_ids in Hm. simpl in Hm. apply in_map_iff in Hm.
        destruct Hm as (r & <- & Hrn). destruct (Hgen r Hrn) as (k & Hk & E).
        exists k. split; [lia | exact E].
      * destruct (Hi b i Hin Hm) as (k & Hk & E).
        exists k. split; [lia | exact E].
    + constructor; [|exact Ha].
      apply Forall_forall. intros b Hin i Hm Hm'.
      unfold member_ids in Hm. simpl in Hm. apply in_map_iff in Hm.
      destruct Hm as (r & <- & Hrn). destruct (Hgen r Hrn) as (k & Hk & E).
      destruct (Hi b _ Hin Hm') as (k' & Hk' & E').
      rewrite E in E'. apply fresh in E'. lia.
Qed.

Lemma consistent_clearResults w : consistent env (clearResults w).
Proof.
  refine (conj _ (conj _ _)).
  - intros b i [].
  - intros b i [].
  - constructor.
Qed.

Lemma consistent_deleteResult id w :
  consistent env w -> ~ referenced w id -> consistent env (deleteResult id w).
Proof.
  intros (Hp & Hi & Ha) Hfree.
  refine (conj _ (conj _ _)).
  - intros b i Hin Hm. unfold result_ids, deleteResult. simpl.
    apply deleted_result_ids. split; [exact (Hp b i Hin Hm)|].
    intros ->. apply Hfree. now exists b.
  - exact Hi.
  - exact Ha.
Qed.

Lemma consistent_deleteBatch id w :
  consistent env w -> consistent env (deleteBatch id w).
Proof.
  intros (Hp & Hi & Ha).
  assert (Hsub : forall b,
            In b (AnalysisState.batches (state (deleteBatch id w))) ->
            In b (AnalysisState.batches (state w)) /\ BatchResult.id b <> id).
  { intros b Hin. now apply other_batches_In. }
  refine (conj _ (conj _ _)).
  - intros b i Hin Hm. apply Hsub in Hin. destruct Hin as [Hin Hne].
    pose proof (Hp b i Hin Hm) as Hstored.
    unfold result_ids, deleteBatch. simpl.
    destruct (find (fun b0 => String.eqb (BatchResult.id b0) id)
                (AnalysisState.batches (state w))) as [batch|] eqn:Ef;
      [|exact Hstored].
    apply find_some in Ef. destruct Ef as [Hbatch Hid].
    apply String.eqb_eq in Hid.
    apply in_map_iff in Hstored. destruct Hstored as (r & <- & Hr).
    apply in_map. apply cascade_filter_In. split; [exact Hr|].
    intros Hboth.
    destruct (ForallOrdPairs_In Ha _ _ Hin Hbatch) as [-> | [Hd | Hd]].
    + congruence.
    + exact (Hd _ Hm Hboth).
    + exact (Hd _ Hboth Hm).
  - intros b i Hin Hm. apply Hsub in Hin. exact (Hi b i (proj1 Hin) Hm).
  - unfold batches_apart, deleteBatch. simpl.
    now apply ForallOrdPairs_filter.
Qed.

Lemma consistent_run w op :
  consistent env w -> keeps_members w op -> consistent env (run env w op).
Proof.
  intros Hc Hop. destruct op; simpl.
  - now apply consistent_analyzeSingleText.
  - now apply consistent_analyzeBatch.
  - apply consistent_clearResults.
  - now apply consistent_deleteResult.
  - now apply consistent_deleteBatch.
Qed.

Lemma reachable_consistent w : reachable env w -> consistent env w.
Proof.
  induction 1 as [|w op Hreach IH Hop].
  - apply consistent_empty.
  - now apply consistent_run.
Qed.

End Invariant.

Lemma unary_inj i j : Sample.unary i = Sample.unary j -> i = j.
Proof.
  revert j. induction i as [|i IH]; intros [|j]; simpl; try discriminate.
  - reflexivity.
  - intros [= H]. f_equal. now apply IH.
Qed.

Lemma env_ok_fresh : fresh_ids Sample.env_ok.
Proof.
  intros i j H. simpl in H. apply unary_inj.
  now injection H.
Qed.

(** C4, as amended.  With generated ids that never repeat, every state
    reached from the empty state by [analyzeSingleText], [analyzeBatch],
    [deleteBatch], [clearResults] and by [deleteResult] on ids that no batch
    refers to satisfies the invariant that every id in a batch's member list
    is the id of a stored result, and each of these operations leads from
    such a state to a state that satisfies it again. *)
Theorem reachable_batch_members_present (env : Env) (w : World) :
  fresh_ids env ->
  reachable env w ->
  batch_members_present w
  /\ forall op, keeps_members w op -> batch_members_present (run env w op).
Proof.
  intros Hfresh Hreach.
  pose proof (reachable_consistent env Hfresh w Hreach) as Hc.
  split.
  - apply Hc.
  - intros op Hop. apply (consistent_run env Hfresh w op Hc Hop).
Qed.

(** A batch, a single analysis, the deletion of the single result, then the
    deletion of the batch. *)
Lemma reachable_batch_members_present_witness :
  batch_members_present
    (run Sample.env_ok (run Sample.env_ok Sample.store (DeleteResult "result_iii"))
       (DeleteBatch "batch_ii")).
Proof.
  assert (R2 : reachable Sample.env_ok Sample.store).
  { cbv [Sample.store run_all fold_left].
    apply reach_step; [|exact I].
    apply reach_step; [|exact I]. apply reach_empty. }
  assert (R3 : reachable Sample.env_ok
                 (run Sample.env_ok Sample.store (DeleteResult "result_iii"))).
  { apply reach_step; [exact R2|].
    intros (b & Hb & Hi). vm_compute in Hb. destruct Hb as [<- | []].
    vm_compute in Hi. destruct Hi as [Hi | [Hi | []]]; discriminate. }
  apply (reachable_batch_members_present Sample.env_ok _ env_ok_fresh R3).
  exact I.
Defined.

(** C4, as stated, fails: [deleteResult] on a member of a batch removes the
    result and leaves the batch, which then refers to an id that is not
    stored. *)
Lemma deleteResult_breaks_batch_members :
  batch_members_present Sample.one_batch
  /\ ~ batch_members_present
        (run Sample.env_ok Sample.one_batch (DeleteResult "result_")).
Proof.
  split.
  - apply (reachable_consistent Sample.env_ok env_ok_fresh).
    cbv [Sample.one_batch run_all fold_left].
    apply reach_step; [apply reach_empty | exact I].
  - intros H.
    assert (Hm : exists b,
               In b (AnalysisState.batches
                       (state (run Sample.env_ok Sample.one_batch
                                 (DeleteResult "result_"))))
               /\ In "result_" (member_ids b)).
    { eexists. split; [cbn; left; reflexivity | cbn; left; reflexivity]. }
    destruct Hm as (b & Hb & Hi). specialize (H b _ Hb Hi).
    vm_compute in H. exact H.
Qed.

(** The batch of [Sample.store] is deleted: its two results go, the single
    result with the text of the first member stays. *)
Lemma deleteBatch_cascade_witness :
  exists batch,
    find (fun b => String.eqb (BatchResult.id b) "batch_ii")
      (AnalysisState.batches (state Sample.store)) = Some batch
    /\ AnalysisState.batches (state (deleteBatch "batch_ii" Sample.store)) = []
    /\ forall r,
         In r (AnalysisState.results (state (deleteBatch "batch_ii" Sample.store)))
         <-> In r (AnalysisState.results (state Sample.store))
             /\ ~ In (SentimentResult.id r) (member_ids batch).
Proof.
  eexists. split; [reflexivity|].
  pose proof (deleteBatch_cascade "batch_ii" Sample.store _ eq_refl)
    as (_ & Hb & _ & Hr & _).
  split; [exact Hb | exact Hr].
Defined.

(* ===================================================================== *)
(** ** Further properties: normalizer and verdict                         *)
(* ===================================================================== *)

Lemma clamp01_unit x : unit_score (clamp01 x).
Proof.
  split; [apply clamp01_nonneg|].
  unfold clamp01. apply Q.max_lub; [discriminate | apply Q.le_min_l].
Qed.

Lemma last_score_unit results s : unit_score (last_score results s).
Proof.
  unfold last_score. destruct (rev (filter (maps_to s) results)).
  - split; discriminate.
  - apply clamp01_unit.
Qed.

(** The buckets never hold more than the running total. *)
Lemma accumulate_sum_le_total results :
  score_sum (fst (accumulate_scores results)) <= snd (accumulate_scores results).
Proof.
  induction results as [|r results IH] using rev_ind.
  - discriminate.
  - rewrite accumulate_snoc.
    pose proof (accumulate_last_write results (bucket_of r)) as Hold.
    pose proof (last_score_nonneg results (bucket_of r)) as Hpos.
    pose proof (clamp01_nonneg (score r)) as Hv.
    destruct (accumulate_scores results) as [sc tot]. simpl in *.
    fold (bucket_of r). rewrite get_set_same, score_sum_set.
    rewrite <- Hold in Hpos. lra.
Qed.

Lemma get_score_le_sum sc s :
  (forall s', 0 <= get_score sc s') -> get_score sc s <= score_sum sc.
Proof.
  intros H. pose proof (H Positive). pose proof (H Negative).
  pose proof (H Neutral). unfold score_sum. destruct s; simpl in *; lra.
Qed.

Lemma Qdiv_unit a t : 0 <= a -> a <= t -> 0 < t -> unit_score (a / t).
Proof.
  intros Ha Hat Ht. split.
  - apply Qle_shift_div_l; [assumption | lra].
  - apply Qle_shift_div_r; [assumption | lra].
Qed.

(** Rescaled or not, every bucket stays between 0 and 1: a bucket is one of
    the summands of the total it is divided by. *)
Lemma rescale_bounds sc total :
  (forall s, unit_score (get_score sc s)) ->
  score_sum sc <= total ->
  forall s, unit_score (get_score (rescale sc total) s).
Proof.
  intros Hunit Hsum.
  assert (Hpos : forall s, 0 <= get_score sc s) by (intros s; apply Hunit).
  unfold rescale.
  destruct (Qlt_bool 0 total) eqn:E0;
    [apply Qlt_bool_iff in E0 | cbn [andb]; exact Hunit].
  destruct (Qlt_bool (1 # 100) (Qabs (total - 1))); cbn [andb];
    [|exact Hunit].
  intros s.
  assert (Hs : get_score sc s <= total)
    by (apply Qle_trans with (score_sum sc);
        [now apply get_score_le_sum | assumption]).
  destruct s; cbn [get_score positive negative neutral] in *;
    apply Qdiv_unit; try assumption;
    [apply (Hpos Positive) | apply (Hpos Negative) | apply (Hpos Neutral)].
Qed.

(** X1.  For every answer of the classifier, each of the three scores that
    [analyzeSentiment] returns lies between 0 and 1, and so does the
    confidence. *)
Theorem analyzeSentiment_scores_bounded
    (toFixed1 : Q -> string) (text : string)
    (results : list HuggingFaceResponse) :
  let a := analyzeSentiment_of toFixed1 text results in
  (forall s, unit_score (get_score (Analysis.scores a) s))
  /\ unit_score (Analysis.confidence a).
Proof.
  cbn zeta. unfold analyzeSentiment_of. cbn [Analysis.scores Analysis.confidence].
  assert (Hu : forall s, unit_score (get_score (normalize_scores results) s)).
  { unfold normalize_scores.
    pose proof (accumulate_sum_le_total results) as Hsum.
    assert (Hunit : forall s,
               unit_score (get_score (fst (accumulate_scores results)) s))
      by (intros s; rewrite accumulate_last_write; apply last_score_unit).
    destruct (accumulate_scores results) as [sc total]. simpl in *.
    now apply rescale_bounds. }
  split; [exact Hu | apply Hu].
Qed.

Lemma clamp01_nonpos x : x <= 0 -> clamp01 x == 0.
Proof.
  intros H. unfold clamp01.
  apply Qle_antisym; [|apply Q.le_max_l].
  apply Q.max_lub; [apply Qle_refl|].
  apply Qle_trans with x; [apply Q.le_min_r | assumption].
Qed.

Lemma last_score_zero results s :
  (forall r, In r results -> score r <= 0) -> last_score results s == 0.
Proof.
  intros H. unfold last_score.
  destruct (rev (filter (maps_to s) results)) as [|r rest] eqn:E.
  - reflexivity.
  - apply clamp01_nonpos, H.
    assert (Hin : In r (rev (filter (maps_to s) results)))
      by (rewrite E; now left).
    apply in_rev, filter_In in Hin. tauto.
Qed.

Lemma clamped_total_zero results :
  (forall r, In r results -> score r <= 0) -> clamped_total results == 0.
Proof.
  induction results as [|r results IH]; intros H; simpl.
  - reflexivity.
  - rewrite IH by (intros x Hx; apply H; now right).
    rewrite clamp01_nonpos by (apply H; now left). reflexivity.
Qed.

(** X3.  When the classifier's answer is empty, or none of its scores is
    positive, [analyzeSentiment] returns the verdict neutral with confidence
    0 and three zero scores. *)
Theorem analyzeSentiment_nothing_scored
    (toFixed1 : Q -> string) (text : string)
    (results : list HuggingFaceResponse) :
  (forall r, In r results -> score r <= 0) ->
  let a := analyzeSentiment_of toFixed1 text results in
  Analysis.sentiment a = Neutral
  /\ Analysis.confidence a == 0
  /\ all_zero (Analysis.scores a).
Proof.
  intros H. cbn zeta.
  assert (Hz : forall s, get_score (normalize_scores results) s == 0).
  { intros s. unfold normalize_scores.
    pose proof (accumulate_last_write results s) as Hl.
    pose proof (accumulate_total results) as Ht.
    rewrite (clamped_total_zero results H) in Ht.
    destruct (accumulate_scores results) as [sc total]. simpl in *.
    unfold rescale.
    replace (Qlt_bool 0 total) with false
      by (symmetry; apply Qlt_bool_false; rewrite Ht; apply Qle_refl).
    cbn [andb]. rewrite Hl. now apply last_score_zero. }
  assert (Hv : select_sentiment (normalize_scores results) = Neutral).
  { rewrite select_sentiment_unfold. unfold pick at 1.
    replace (Qlt_bool _ _) with false; [reflexivity|].
    symmetry. apply Qlt_bool_false. rewrite !Hz. apply Qle_refl. }
  unfold analyzeSentiment_of.
  cbn [Analysis.sentiment Analysis.confidence Analysis.scores].
  refine (conj Hv (conj (Hz _) _)).
  exact (conj (Hz Positive) (conj (Hz Negative) (Hz Neutral))).
Qed.

(** An answer whose only score is negative. *)
Lemma analyzeSentiment_nothing_scored_witness :
  Analysis.sentiment
    (analyzeSentiment_of (fun _ => "") "hello" [mkResponse "positive" (-1 # 2)])
  = Neutral.
Proof.
  apply (analyzeSentiment_nothing_scored (fun _ => "") "hello"
           [mkResponse "positive" (-1 # 2)]).
  intros r [<- | []]. discriminate.
Defined.

(* ===================================================================== *)
(** ** Further properties: labels, keywords, simulator                    *)
(* ===================================================================== *)

Lemma lower_ascii_idem c : Js.lower_ascii (Js.lower_ascii c) = Js.lower_ascii c.
Proof. destruct c as [[] [] [] [] [] [] [] []]; reflexivity. Qed.

Lemma toLowerCase_idem s : Js.toLowerCase (Js.toLowerCase s) = Js.toLowerCase s.
Proof.
  induction s as [|c s IH]; simpl; [reflexivity|].
  now rewrite lower_ascii_idem, IH.
Qed.

(** X4.  The label mapper ignores case, and it maps every label that, up to
    case, is the name of a canonical sentiment to that sentiment. *)
Theorem mapSentimentLabel_case_insensitive (label : string) :
  mapSentimentLabel (Js.toLowerCase label) = mapSentimentLabel label
  /\ forall s, Js.toLowerCase label = sentiment_name s ->
               mapSentimentLabel label = s.
Proof.
  split.
  - unfold mapSentimentLabel. now rewrite toLowerCase_idem.
  - intros s H. unfold mapSentimentLabel. rewrite H. now destruct s.
Qed.

(** The label "Negative". *)
Lemma mapSentimentLabel_case_insensitive_witness :
  mapSentimentLabel "Negative" = Negative.
Proof.
  apply (mapSentimentLabel_case_insensitive "Negative"). reflexivity.
Defined.

(** X5.  The keyword extractor and the hit counter of the simulator ignore
    case: lower-casing the text first changes neither the keywords nor the
    counts. *)
Theorem extractKeywords_case_insensitive (text : string) (sentiment : Sentiment) :
  extractKeywords (Js.toLowerCase text) sentiment = extractKeywords text sentiment
  /\ Demo.hit_counts (Js.toLowerCase text) = Demo.hit_counts text.
Proof.
  unfold extractKeywords, Demo.hit_counts. now rewrite toLowerCase_idem.
Qed.

Lemma first_occurrences_nil ks : first_occurrences [] ks = [] -> ks = [].
Proof. destruct ks; [reflexivity | discriminate]. Qed.

Lemma firstn_5_nil {A} (l : list A) : firstn 5 l = [] -> l = [].
Proof. destruct l; [reflexivity | discriminate]. Qed.

Lemma keyword_of_word_nil w :
  keyword_of_word w = []
  <-> ~ (In w Extractor.positiveWords \/ In w Extractor.negativeWords).
Proof.
  unfold keyword_of_word. rewrite <- !array_includes_In.
  destruct (Js.array_includes Extractor.positiveWords w),
           (Js.array_includes Extractor.negativeWords w);
    split; try discriminate; intuition congruence.
Qed.

Lemma collect_keywords_nil words :
  collect_keywords words = []
  <-> forall w, In w words ->
        ~ (In w Extractor.positiveWords \/ In w Extractor.negativeWords).
Proof.
  unfold collect_keywords. induction words as [|w words IH]; simpl.
  - split; [intros _ w [] | reflexivity].
  - split.
    + intros H. apply app_eq_nil in H. destruct H as [Hw Hrest].
      intros x [<- | Hx]; [now apply keyword_of_word_nil | now apply IH].
    + intros H.
      rewrite (proj2 (keyword_of_word_nil w)) by (apply H; now left).
      apply IH. intros x Hx. apply H. now right.
Qed.

(** X6.  [extractKeywords] returns no keyword exactly when no token of the
    lower-cased text is in the positive or in the negative lexicon. *)
Theorem extractKeywords_empty_iff (text : string) (sentiment : Sentiment) :
  extractKeywords text sentiment = [] <-> ~ exists w, lexicon_token text w.
Proof.
  unfold extractKeywords, lexicon_token. cbv zeta.
  rewrite uniqueKeywords_first_occurrences. split.
  - intros H. apply firstn_5_nil, first_occurrences_nil in H.
    intros (w & Hw & Hl). exact (proj1 (collect_keywords_nil _) H w Hw Hl).
  - intros H.
    rewrite (proj2 (collect_keywords_nil _)); [reflexivity|].
    intros w Hw Hl. apply H. now exists w.
Qed.

Lemma demo_verdict_confidence random p n :
  unit_draws random ->
  let c := snd (fst (Demo.verdict random p n)) in
  55 # 100 <= c /\ c <= 92 # 100.
Proof.
  intros Hr. unfold Demo.verdict.
  assert (Hcap : forall k, (0 < k)%nat ->
             55 # 100 <= Qmin (0.65 + Demo.of_count k * 0.08) 0.92
             /\ Qmin (0.65 + Demo.of_count k * 0.08) 0.92 <= 92 # 100).
  { intros k Hk. split; [|apply Q.le_min_r].
    apply Q.min_glb; [|discriminate].
    assert (Hc : 0 <= Demo.of_count k).
    { unfold Demo.of_count. change 0 with (inject_Z 0).
      rewrite <- Zle_Qle. lia. }
    lra. }
  destruct (n <? p)%nat eqn:E1.
  - apply Nat.ltb_lt in E1. apply Hcap. lia.
  - destruct (p <? n)%nat eqn:E2.
    + apply Nat.ltb_lt in E2. apply Hcap. lia.
    + cbn [fst snd]. destruct (Hr 1%nat). lra.
Qed.

Lemma demo_bucket_other random s c key k :
  unit_draws random -> 55 # 100 <= c -> c <= 92 # 100 -> s <> key ->
  let x := fst (Demo.bucket random s c key k) in
  0 <= x /\ x <= 27 # 100.
Proof.
  intros Hr Hlo Hhi Hne. unfold Demo.bucket.
  destruct (Sentiment_eqb s key) eqn:E;
    [apply Sentiment_eqb_eq in E; contradiction|].
  cbn [fst]. destruct (Hr k) as [H0 H1].
  assert (Hrem : 0 <= 1 - c /\ 1 - c <= 45 # 100) by (split; lra).
  destruct Hrem as [Ha Hb].
  assert (Hprod : 0 <= random k * (1 - c) /\ random k * (1 - c) <= 45 # 100).
  { split.
    - now apply Qmult_le_0_compat.
    - apply Qle_trans with (1 * (1 - c)); [|lra].
      apply Qmult_le_compat_r; [lra | assumption]. }
  set (x := random k * (1 - c)) in *. clearbody x. destruct Hprod. split; lra.
Qed.

Lemma demo_bucket_own random s c k :
  fst (Demo.bucket random s c s k) = c.
Proof. unfold Demo.bucket. now rewrite Sentiment_eqb_refl. Qed.

Lemma Qdiv_lt_div a b t : 0 < t -> a < b -> a / t < b / t.
Proof.
  intros Ht Hab. unfold Qdiv. apply Qmult_lt_r; [|assumption].
  now apply Qinv_lt_0_compat.
Qed.

Lemma Qdiv_nonneg a t : 0 < t -> 0 <= a -> 0 <= a / t.
Proof. intros Ht Ha. apply Qle_shift_div_l; [assumption | lra]. Qed.

(** The three scores of the simulator once the verdict [s], its confidence
    [c] and the three values of the literal are known. *)
Lemma demo_scores_shape s c x1 x2 x3 :
  55 # 100 <= c ->
  (forall key, 0 <= get_score (mkScores x1 x2 x3) key) ->
  get_score (mkScores x1 x2 x3) s = c ->
  (forall key, key <> s -> get_score (mkScores x1 x2 x3) key <= 27 # 100) ->
  let total := x1 + x2 + x3 in
  let sc := mkScores (x1 / total) (x2 / total) (x3 / total) in
  (forall key, 0 <= get_score sc key)
  /\ score_sum sc == 1
  /\ (forall key, key <> s -> get_score sc key < get_score sc s).
Proof.
  intros Hc Hpos Hown Hoth total sc.
  pose proof (Hpos Positive) as H1. pose proof (Hpos Negative) as H2.
  pose proof (Hpos Neutral) as H3. cbn [get_score positive negative neutral] in *.
  assert (Ht : 0 < total).
  { unfold total. destruct s; cbn [get_score positive negative neutral] in Hown;
      subst c; lra. }
  refine (conj _ (conj _ _)).
  - intros []; cbn [sc get_score positive negative neutral];
      now apply Qdiv_nonneg.
  - unfold score_sum, sc. cbn [positive negative neutral].
    unfold total in *. field. lra.
  - intros key Hne.
    assert (Hlt : get_score (mkScores x1 x2 x3) key
                  < get_score (mkScores x1 x2 x3) s).
    { rewrite Hown. apply Qle_lt_trans with (27 # 100); [now apply Hoth | lra]. }
    destruct key, s; try congruence;
      cbn [sc get_score positive negative neutral] in *;
      now apply Qdiv_lt_div.
Qed.

(** X7.  With draws of [Math.random] in [0, 1), the simulator returns a
    confidence between 0.55 and 0.92, three non-negative scores whose sum is
    1 within the tolerance 0.01, and a verdict whose score is strictly the
    largest of the three. *)
Theorem analyzeSentimentDemo_distribution
    (toFixed1 : Q -> string) (random : nat -> Q) (text : string) :
  unit_draws random ->
  let a := analyzeSentimentDemo toFixed1 random text in
  (55 # 100 <= Analysis.confidence a /\ Analysis.confidence a <= 92 # 100)
  /\ (forall key, 0 <= get_score (Analysis.scores a) key)
  /\ sums_to_one (Analysis.scores a)
  /\ (forall key, key <> Analysis.sentiment a ->
        get_score (Analysis.scores a) key
        < get_score (Analysis.scores a) (Analysis.sentiment a)).
Proof.
  intros Hr. cbn zeta. unfold analyzeSentimentDemo.
  destruct (Demo.hit_counts text) as [p n].
  pose proof (demo_verdict_confidence random p n Hr) as Hc. cbn zeta in Hc.
  destruct (Demo.verdict random p n) as [[s c] k]. cbn [fst snd] in Hc.
  destruct Hc as [Hlo Hhi].
  assert (Hb : forall key j,
             (key = s -> fst (Demo.bucket random s c key j) = c)
             /\ (key <> s ->
                 0 <= fst (Demo.bucket random s c key j)
                 /\ fst (Demo.bucket random s c key j) <= 27 # 100)).
  { intros key j. split.
    - intros ->. apply demo_bucket_own.
    - intros Hne. apply demo_bucket_other; auto. }
  pose proof (Hb Positive k) as B1.
  destruct (Demo.bucket random s c Positive k) as [x1 k1].
  pose proof (Hb Negative k1) as B2.
  destruct (Demo.bucket random s c Negative k1) as [x2 k2].
  pose proof (Hb Neutral k2) as B3.
  destruct (Demo.bucket random s c Neutral k2) as [x3 k3].
  cbn [fst] in B1, B2, B3.
  cbn [Analysis.confidence Analysis.scores Analysis.sentiment].
  split; [exact (conj Hlo Hhi)|].
  enough (Hshape :
            (forall key,
               0 <= get_score
                      (mkScores (x1 / (x1 + x2 + x3)) (x2 / (x1 + x2 + x3))
                         (x3 / (x1 + x2 + x3))) key)
            /\ score_sum
                 (mkScores (x1 / (x1 + x2 + x3)) (x2 / (x1 + x2 + x3))
                    (x3 / (x1 + x2 + x3))) == 1
            /\ (forall key, key <> s ->
                  get_score
                    (mkScores (x1 / (x1 + x2 + x3)) (x2 / (x1 + x2 + x3))
                       (x3 / (x1 + x2 + x3))) key
                  < get_score
                      (mkScores (x1 / (x1 + x2 + x3)) (x2 / (x1 + x2 + x3))
                         (x3 / (x1 + x2 + x3))) s)).
  { destruct Hshape as (Hn & Hone & Hmax).
    refine (conj Hn (conj _ Hmax)).
    unfold sums_to_one. rewrite Hone. discriminate. }
  apply demo_scores_shape with (c := c); [exact Hlo | | | ].
  - intros []; cbn [get_score positive negative neutral];
      [destruct B1 as [Ho Hx] | destruct B2 as [Ho Hx] | destruct B3 as [Ho Hx]];
      (destruct (Sentiment_eqb_eq s Positive) as [_ _];
       match goal with
       | |- 0 <= ?x =>
           match type of Ho with
           | ?key = s -> _ =>
               destruct s; try (rewrite (Ho eq_refl); lra);
                 (apply Hx; discriminate)
           end
       end).
  - destruct s; cbn [get_score positive negative neutral];
      [apply B1 | apply B2 | apply B3]; reflexivity.
  - intros key Hne.
    destruct key; cbn [get_score positive negative neutral];
      [apply B1 | apply B2 | apply B3]; exact Hne.
Qed.

(** Every draw is 1/2. *)
Lemma analyzeSentimentDemo_distribution_witness :
  sums_to_one
    (Analysis.scores
       (analyzeSentimentDemo (fun _ => "") (fun _ => 1 # 2) "a good day")).
Proof.
  apply (analyzeSentimentDemo_distribution (fun _ => "") (fun _ => 1 # 2)
           "a good day").
  intros n. split; discriminate || reflexivity.
Defined.

(* ===================================================================== *)
(** ** Further properties: inference client                               *)
(* ===================================================================== *)

Section ClientFacts.

Variable apiKey : option string.
Variable fetch : Request -> Thrown + HttpResponse.
Variable JSON_parse : string -> option json.
Variable toString : json -> string.
Variable nullReadMessage : string.

Abbreviation call' := (makeApiCall apiKey fetch JSON_parse toString nullReadMessage).
Abbreviation request' := (request_for apiKey).

Lemma makeApiCall_bad_key text useFailover e :
  check_key apiKey = Some e -> call' text useFailover = throw e.
Proof.
  intros H.
  rewrite (makeApiCall_equation_1 _ _ _ _ _ text useFailover).
  rewrite H. reflexivity.
Qed.

Lemma makeApiCall_fetch_failed text useFailover e :
  check_key apiKey = None ->
  fetch (request' text useFailover) = inl e ->
  call' text useFailover = ([request' text useFailover], inl (on_catch e)).
Proof.
  intros Hkey Hf.
  rewrite (makeApiCall_equation_1 _ _ _ _ _ text useFailover).
  rewrite Hkey. simpl. rewrite Hf. reflexivity.
Qed.

(** A call that gets a response other than a 404 of the primary endpoint
    ends with this one request. *)
Lemma makeApiCall_single text useFailover response :
  check_key apiKey = None ->
  fetch (request' text useFailover) = inr response ->
  useFailover = true \/ status response <> 404%Z ->
  call' text useFailover =
  ([request' text useFailover],
   if negb (ok response) then
     if (status response =? 404)%Z then inl (JsError Msg.modelNotFound)
     else inl (status_error JSON_parse toString response)
   else settle (read_body JSON_parse nullReadMessage response)).
Proof.
  intros Hkey Hf Hcase.
  rewrite (makeApiCall_equation_1 _ _ _ _ _ text useFailover).
  rewrite Hkey. simpl. rewrite Hf. simpl. unfold on_response.
  destruct (negb (ok response)); simpl; [|reflexivity].
  destruct (status response =? 404)%Z eqn:E.
  - destruct useFailover; [reflexivity|].
    apply Z.eqb_eq in E. destruct Hcase; [discriminate | contradiction].
  - simpl. unfold sent. simpl.
    now rewrite (on_catch_status_error JSON_parse toString).
Qed.

(** X8.  Without a usable credential [makeApiCall] sends no request at all:
    with no key, or an empty one, it throws the key-not-set error, and with a
    key that does not start with hf_ the key-format error. *)
Theorem makeApiCall_requires_key (text : string) (useFailover : bool) :
  (apiKey = None \/ apiKey = Some "" ->
   call' text useFailover = ([], inl (JsError Msg.keyNotSet)))
  /\ (forall k, apiKey = Some k -> k <> "" -> Js.startsWith k "hf_" = false ->
        call' text useFailover = ([], inl (JsError Msg.keyFormat))).
Proof.
  split.
  - intros H. apply makeApiCall_bad_key. unfold check_key.
    destruct H as [H | H]; rewrite H; reflexivity.
  - intros k Hk Hne Hpre. apply makeApiCall_bad_key. unfold check_key.
    rewrite Hk.
    destruct k as [|c k]; [congruence|]. simpl String.length.
    cbn [Nat.eqb]. now rewrite Hpre.
Qed.

(** X9.  With a usable credential, a call sends one request to the primary
    endpoint, and a second one, to the fallback endpoint, exactly when the
    primary answers with status 404; a call made on the fallback endpoint
    sends one request and never a second. *)
Theorem makeApiCall_endpoints (text : string) :
  check_key apiKey = None ->
  map url (fst (call' text false))
  = match fetch (request' text false) with
    | inr response =>
        if (status response =? 404)%Z
        then [HUGGINGFACE_API_URL; FALLBACK_API_URL]
        else [HUGGINGFACE_API_URL]
    | inl _ => [HUGGINGFACE_API_URL]
    end
  /\ map url (fst (call' text true)) = [FALLBACK_API_URL].
Proof.
  intros Hkey.
  assert (Hfb : map url (fst (call' text true)) = [FALLBACK_API_URL])
    by (rewrite (makeApiCall_fallback apiKey fetch JSON_parse toString
                   nullReadMessage text Hkey); reflexivity).
  split; [|exact Hfb].
  destruct (fetch (request' text false)) as [e|response] eqn:Hf.
  - now rewrite (makeApiCall_fetch_failed _ _ _ Hkey Hf).
  - destruct (status response =? 404)%Z eqn:E.
    + apply Z.eqb_eq in E.
      rewrite (makeApiCall_primary_404 apiKey fetch JSON_parse toString
                 nullReadMessage text response Hkey Hf E).
      unfold sent. cbn [fst map]. now rewrite Hfb.
    + apply Z.eqb_neq in E.
      now rewrite (makeApiCall_single _ _ _ Hkey Hf (or_intror E)).
Qed.

Lemma substring_length_le n s : (String.length (String.substring 0 n s) <= n)%nat.
Proof.
  revert s. induction n as [|n IH]; intros [|c s]; simpl; try lia.
  specialize (IH s). lia.
Qed.

Lemma makeApiCall_requests text useFailover req :
  In req (fst (call' text useFailover)) ->
  req = request' text useFailover \/ req = request' text true.
Proof.
  destruct (check_key apiKey) as [e|] eqn:Hkey.
  - rewrite (makeApiCall_bad_key _ _ _ Hkey). intros [].
  - assert (Hfb : fst (call' text true) = [request' text true])
      by (rewrite (makeApiCall_fallback apiKey fetch JSON_parse toString
                     nullReadMessage text Hkey); reflexivity).
    destruct (fetch (request' text useFailover)) as [e|response] eqn:Hf.
    + rewrite (makeApiCall_fetch_failed _ _ _ Hkey Hf). simpl. intuition congruence.
    + destruct useFailover.
      * rewrite Hfb. simpl. intuition congruence.
      * destruct (status response =? 404)%Z eqn:E.
        -- apply Z.eqb_eq in E.
           rewrite (makeApiCall_primary_404 apiKey fetch JSON_parse toString
                      nullReadMessage text response Hkey Hf E).
           unfold sent. cbn [fst]. rewrite Hfb. simpl. intuition congruence.
        -- apply Z.eqb_neq in E.
           rewrite (makeApiCall_single _ _ _ Hkey Hf (or_intror E)).
           simpl. intuition congruence.
Qed.

(** X10.  Every request [makeApiCall] sends carries the first 500
    characters of the text and no more, the credential as bearer token, and
    goes to the primary or to the fallback endpoint. *)
Theorem makeApiCall_request_shape (text : string) (useFailover : bool)
    (req : Request) :
  In req (fst (call' text useFailover)) ->
  inputs req = String.substring 0 500 text
  /\ (String.length (inputs req) <= 500)%nat
  /\ (forall k, apiKey = Some k -> authorization req = "Bearer " ++ k)
  /\ (url req = HUGGINGFACE_API_URL \/ url req = FALLBACK_API_URL).
Proof.
  intros Hin.
  assert (Hshape : forall b, inputs (request' text b) = String.substring 0 500 text
                     /\ authorization (request' text b) = bearer apiKey
                     /\ (url (request' text b) = HUGGINGFACE_API_URL
                         \/ url (request' text b) = FALLBACK_API_URL)).
  { intros []; simpl; auto. }
  assert (Hreq : exists b, req = request' text b).
  { destruct (makeApiCall_requests _ _ _ Hin) as [-> | ->]; eauto. }
  destruct Hreq as (b & ->). destruct (Hshape b) as (Hi & Ha & Hu).
  refine (conj Hi (conj _ (conj _ Hu))).
  - rewrite Hi. apply substring_length_le.
  - intros k Hk. rewrite Ha. unfold bearer. now rewrite Hk.
Qed.

(** X11.  [makeApiCall] returns data only from a response with a 2xx
    status, the last one it received, and the data is what the shape probe
    reads from the body of that response. *)
Theorem makeApiCall_data_from_ok_response (text : string) (useFailover : bool)
    (data : list json) :
  snd (call' text useFailover) = inr data ->
  exists req response,
    last (fst (call' text useFailover)) req = req
    /\ In req (fst (call' text useFailover))
    /\ fetch req = inr response
    /\ ok response = true
    /\ read_body JSON_parse nullReadMessage response = inr data.
Proof.
  destruct (check_key apiKey) as [e|] eqn:Hkey.
  { rewrite (makeApiCall_bad_key _ _ _ Hkey). discriminate. }
  assert (Hone : forall b response,
             fetch (request' text b) = inr response ->
             b = true \/ status response <> 404%Z ->
             snd (call' text b) = inr data ->
             fst (call' text b) = [request' text b]
             /\ ok response = true
             /\ read_body JSON_parse nullReadMessage response = inr data).
  { intros b response Hf Hcase.
    rewrite (makeApiCall_single _ _ _ Hkey Hf Hcase). cbn [fst snd].
    destruct (ok response); cbn [negb].
    - intros H. refine (conj eq_refl (conj eq_refl _)).
      destruct (read_body JSON_parse nullReadMessage response); simpl in H;
        congruence.
    - destruct (status response =? 404)%Z; discriminate. }
  destruct (fetch (request' text useFailover)) as [e|response] eqn:Hf.
  { rewrite (makeApiCall_fetch_failed _ _ _ Hkey Hf). discriminate. }
  destruct useFailover.
  - intros H. destruct (Hone true response Hf (or_introl eq_refl) H)
      as (Hreqs & Hok & Hbody).
    exists (request' text true), response. rewrite Hreqs. simpl. auto.
  - destruct (status response =? 404)%Z eqn:E.
    + apply Z.eqb_eq in E.
      rewrite (makeApiCall_primary_404 apiKey fetch JSON_parse toString
                 nullReadMessage text response Hkey Hf E).
      unfold sent. cbn [fst snd]. intros H.
      destruct (fetch (request' text true)) as [e2|r2] eqn:Hf2.
      { rewrite (makeApiCall_fetch_failed _ _ _ Hkey Hf2) in H. discriminate. }
      destruct (Hone true r2 Hf2 (or_introl eq_refl) H)
        as (Hreqs & Hok & Hbody).
      exists (request' text true), r2. rewrite Hreqs. simpl. auto.
    + apply Z.eqb_neq in E. intros H.
      destruct (Hone false response Hf (or_intror E) H)
        as (Hreqs & Hok & Hbody).
      exists (request' text false), response. rewrite Hreqs. simpl. auto.
Qed.

(** X12.  When [fetch] itself fails, the call ends after this one request:
    a [TypeError] whose message mentions fetch comes out as the network
    error, any other thrown value comes out unchanged. *)
Theorem makeApiCall_network_failure (text : string) (useFailover : bool)
    (e : Thrown) :
  check_key apiKey = None ->
  fetch (request' text useFailover) = inl e ->
  fst (call' text useFailover) = [request' text useFailover]
  /\ (forall m, e = JsTypeError m -> Js.includes m "fetch" = true ->
        snd (call' text useFailover) = inl (JsError Msg.network))
  /\ ((forall m, e = JsTypeError m -> Js.includes m "fetch" = false) ->
      snd (call' text useFailover) = inl e).
Proof.
  intros Hkey Hf. rewrite (makeApiCall_fetch_failed _ _ _ Hkey Hf).
  cbn [fst snd]. refine (conj eq_refl (conj _ _)).
  - intros m -> Hm. simpl. now rewrite Hm.
  - intros H. destruct e as [m|m|]; simpl; try reflexivity.
    now rewrite (H m eq_refl).
Qed.

End ClientFacts.

(** A key without the prefix. *)
Lemma makeApiCall_requires_key_witness :
  makeApiCall (Some "secret") Sample.fetch_404_then_429 (fun _ => None)
    (fun _ => "") "" "hello" false
  = ([], inl (JsError Msg.keyFormat)).
Proof.
  apply (makeApiCall_requires_key (Some "secret") Sample.fetch_404_then_429
           (fun _ => None) (fun _ => "") "" "hello" false) with (k := "secret").
  - reflexivity.
  - discriminate.
  - reflexivity.
Defined.

(** The primary endpoint answers 404. *)
Lemma makeApiCall_endpoints_witness :
  map url
    (fst (makeApiCall (Some "hf_demo") Sample.fetch_404_then_429
            (fun _ => None) (fun _ => "") "" "hello" false))
  = [HUGGINGFACE_API_URL; FALLBACK_API_URL].
Proof.
  exact (proj1 (makeApiCall_endpoints (Some "hf_demo")
                  Sample.fetch_404_then_429 (fun _ => None) (fun _ => "") ""
                  "hello" eq_refl)).
Defined.

(** The request sent for a text of 600 characters. *)
Lemma makeApiCall_request_shape_witness :
  (String.length
     (inputs (request_for (Some "hf_demo") (Sample.unary 600) false)) <= 500)%nat.
Proof.
  apply (makeApiCall_request_shape (Some "hf_demo")
           (fun _ => inl (JsTypeError "Failed to fetch")) (fun _ => None)
           (fun _ => "") "" (Sample.unary 600) false).
  rewrite (makeApiCall_fetch_failed (Some "hf_demo")
             (fun _ => inl (JsTypeError "Failed to fetch")) (fun _ => None)
             (fun _ => "") "" (Sample.unary 600) false
             (JsTypeError "Failed to fetch") eq_refl eq_refl).
  now left.
Defined.

(** A 200 answer in the nested shape. *)
Lemma makeApiCall_data_from_ok_response_witness :
  exists response,
    ok response = true
    /\ read_body
         (fun _ => Some (JArr [JArr [JObj [("label", JStr "positive");
                                           ("score", JNum 1)]]]))
         "" response
       = inr [JObj [("label", JStr "positive"); ("score", JNum 1)]].
Proof.
  destruct (makeApiCall_data_from_ok_response (Some "hf_demo")
              (fun _ => inr (mkHttpResponse 200 "OK" "[[]]"))
              (fun _ => Some (JArr [JArr [JObj [("label", JStr "positive");
                                                ("score", JNum 1)]]]))
              (fun _ => "") "" "hello" false
              [JObj [("label", JStr "positive"); ("score", JNum 1)]] eq_refl)
    as (req & response & _ & _ & _ & Hok & Hbody).
  exists response. split; assumption.
Defined.

(** The browser reports "Failed to fetch". *)
Lemma makeApiCall_network_failure_witness :
  snd (makeApiCall (Some "hf_demo")
         (fun _ => inl (JsTypeError "Failed to fetch")) (fun _ => None)
         (fun _ => "") "" "hello" false)
  = inl (JsError Msg.network).
Proof.
  destruct (makeApiCall_network_failure (Some "hf_demo")
              (fun _ => inl (JsTypeError "Failed to fetch")) (fun _ => None)
              (fun _ => "") "" "hello" false (JsTypeError "Failed to fetch")
              eq_refl eq_refl) as (_ & H & _).
  apply (H "Failed to fetch"); reflexivity.
Defined.

Lemma validateApiKey_check_key key :
  validateApiKey key = true -> check_key (setApiKey key) = None.
Proof.
  unfold validateApiKey, setApiKey, check_key. intros H.
  apply andb_true_iff in H. destruct H as [Hpre Hlen].
  apply Nat.ltb_lt in Hlen.
  replace (String.length (Js.trim key) =? 0)%nat with false
    by (symmetry; apply Nat.eqb_neq; lia).
  now rewrite Hpre.
Qed.

(** X13.  A key the settings page accepts is never refused by the guards of
    [makeApiCall] once [setApiKey] has stored it: the call goes out to the
    network. *)
Theorem validateApiKey_accepted_by_makeApiCall (key : string)
    (fetch : Request -> Thrown + HttpResponse)
    (JSON_parse : string -> option json) (toString : json -> string)
    (nullReadMessage text : string) (useFailover : bool) :
  validateApiKey key = true ->
  check_key (setApiKey key) = None
  /\ hd_error (fst (makeApiCall (setApiKey key) fetch JSON_parse toString
                      nullReadMessage text useFailover))
     = Some (request_for (setApiKey key) text useFailover).
Proof.
  intros H. pose proof (validateApiKey_check_key key H) as Hkey.
  split; [exact Hkey|].
  destruct (fetch (request_for (setApiKey key) text useFailover))
    as [e|response] eqn:Hf.
  - now rewrite (makeApiCall_fetch_failed _ _ _ _ _ _ _ _ Hkey Hf).
  - destruct useFailover.
    + now rewrite (makeApiCall_single _ _ _ _ _ _ _ _ Hkey Hf (or_introl eq_refl)).
    + destruct (status response =? 404)%Z eqn:E.
      * apply Z.eqb_eq in E.
        now rewrite (makeApiCall_primary_404 _ _ _ _ _ _ _ Hkey Hf E).
      * apply Z.eqb_neq in E.
        now rewrite (makeApiCall_single _ _ _ _ _ _ _ _ Hkey Hf (or_intror E)).
Qed.

(** A key with blanks around it. *)
Lemma validateApiKey_accepted_by_makeApiCall_witness :
  check_key (setApiKey "  hf_0123456789  ") = None.
Proof.
  apply (validateApiKey_accepted_by_makeApiCall "  hf_0123456789  "
           Sample.fetch_404_then_429 (fun _ => None) (fun _ => "") "" "hello"
           false).
  reflexivity.
Defined.

(* ===================================================================== *)
(** ** Further properties: request scheduler                              *)
(* ===================================================================== *)

Section SchedulerFacts.

Variable Task : Type.

Abbreviation state_t := (Scheduler.t Task).
Abbreviation obs_t := (Scheduler.Obs Task).

Abbreviation last_obs := (Scheduler.last_obs Task).

Lemma last_obs_app last o1 o2 :
  last_obs last (o1 ++ o2) = last_obs (last_obs last o1) o2.
Proof. unfold Scheduler.last_obs. apply fold_left_app. Qed.

Lemma paced_app last o1 o2 :
  Scheduler.paced Task last (o1 ++ o2)
  <-> Scheduler.paced Task last o1
      /\ Scheduler.paced Task (last_obs last o1) o2.
Proof.
  revert last. induction o1 as [|x o1 IH]; intros last.
  - simpl. tauto.
  - simpl app. cbn [Scheduler.paced Scheduler.last_obs fold_left].
    rewrite IH. tauto.
Qed.

Lemma starts_app (o1 o2 : list obs_t) :
  Scheduler.starts Task (o1 ++ o2)
  = (Scheduler.starts Task o1 ++ Scheduler.starts Task o2)%list.
Proof. unfold Scheduler.starts. apply flat_map_app. Qed.

(** One event keeps the invariant, extends the log by a paced piece and
    moves the started requests from the front of the queue. *)
Lemma step_invariant (s : state_t) e last :
  Scheduler.sound Task s -> Scheduler.agrees Task s last ->
  let s' := fst (Scheduler.step Task s e) in
  let o := snd (Scheduler.step Task s e) in
  Scheduler.sound Task s'
  /\ Scheduler.agrees Task s' (last_obs last o)
  /\ Scheduler.paced Task last o
  /\ (Scheduler.starts Task o ++ Scheduler.requestQueue Task s')%list
     = (Scheduler.requestQueue Task s ++ Scheduler.calls Task [e])%list.
Proof.
  destruct s as [q p acts]. unfold Scheduler.sound, Scheduler.agrees.
  cbn [Scheduler.activations Scheduler.isProcessing Scheduler.requestQueue].
  intros (Hlen & Hflag & Hidle) Hag.
  destruct acts as [|a [|a' acts]]; [| |simpl in Hlen; lia].
  - (* no activation: the flag is down and the queue is empty *)
    assert (Hp : p = false)
      by (destruct p; [exfalso; now apply (proj1 Hflag)|reflexivity]).
    subst p. rewrite (Hidle eq_refl) in *.
    destruct e as [r|[|i]|[|i]]; cbn;
      repeat split; auto; try (intros; congruence); try lia;
      destruct last as [[]|]; tauto.
  - (* one activation: the flag is up *)
    assert (Hp : p = true) by (apply Hflag; discriminate).
    subst p.
    destruct e as [r|[|[|i]]|[|[|i]]]; try destruct a as [r0|];
      try destruct q as [|r1 rest]; cbn;
      repeat split; auto; try (intros; congruence); try lia;
      rewrite ?app_nil_r; auto;
      destruct last as [[]|]; tauto.
Qed.

Lemma run_invariant events : forall (s : state_t) last,
  Scheduler.sound Task s -> Scheduler.agrees Task s last ->
  let s' := fst (Scheduler.run Task s events) in
  let o := snd (Scheduler.run Task s events) in
  Scheduler.sound Task s'
  /\ Scheduler.paced Task last o
  /\ (Scheduler.starts Task o ++ Scheduler.requestQueue Task s')%list
     = (Scheduler.requestQueue Task s ++ Scheduler.calls Task events)%list.
Proof.
  induction events as [|e events IH]; intros s last Hs Hag.
  - cbn. refine (conj Hs (conj I _)). now rewrite app_nil_r.
  - cbn [Scheduler.run].
    pose proof (step_invariant s e last Hs Hag) as Hstep. cbn zeta in Hstep.
    destruct (Scheduler.step Task s e) as [s1 o1]. cbn [fst snd] in Hstep.
    destruct Hstep as (Hs1 & Hag1 & Hp1 & Hq1).
    specialize (IH s1 (last_obs last o1) Hs1 Hag1). cbn zeta in IH.
    destruct (Scheduler.run Task s1 events) as [s2 o2]. cbn [fst snd] in *.
    destruct IH as (Hs2 & Hp2 & Hq2).
    refine (conj Hs2 (conj _ _)).
    + apply paced_app. now split.
    + rewrite starts_app, <- app_assoc, Hq2, app_assoc, Hq1, <- app_assoc.
      f_equal. unfold Scheduler.calls. simpl. now rewrite app_nil_r.
Qed.

Lemma initial_sound : Scheduler.sound Task Scheduler.initial.
Proof.
  unfold Scheduler.sound. cbn. repeat split; auto; try congruence; lia.
Qed.

(** X14.  Whatever the calls, completions and timer expiries, at most one
    activation of [processQueue] exists, so at most one request is in flight;
    [isProcessing] is set exactly while one exists; and when none exists the
    queue is empty: no queued request is left behind. *)
Theorem scheduler_single_flight (events : list (Scheduler.Event Task)) :
  let s := fst (Scheduler.run Task Scheduler.initial events) in
  (List.length (Scheduler.activations Task s) <= 1)%nat
  /\ (Scheduler.isProcessing Task s = true
      <-> Scheduler.activations Task s <> [])
  /\ (Scheduler.isProcessing Task s = false
      -> Scheduler.requestQueue Task s = []).
Proof.
  exact (proj1 (run_invariant events Scheduler.initial None initial_sound I)).
Qed.

(** X15.  Requests are started in the order of the calls, each at most
    once: the requests started so far, followed by the queue, are the
    requests called so far; once the scheduler is idle every request called
    has been started. *)
Theorem scheduler_fifo (events : list (Scheduler.Event Task)) :
  let s := fst (Scheduler.run Task Scheduler.initial events) in
  let obs := snd (Scheduler.run Task Scheduler.initial events) in
  (Scheduler.starts Task obs ++ Scheduler.requestQueue Task s)%list
  = Scheduler.calls Task events
  /\ (Scheduler.isProcessing Task s = false ->
      Scheduler.starts Task obs = Scheduler.calls Task events).
Proof.
  destruct (run_invariant events Scheduler.initial None initial_sound I)
    as ((_ & _ & Hidle) & _ & Hq).
  cbn zeta. cbn in Hq. split; [exact Hq|].
  intros Hp. rewrite <- Hq, (Hidle Hp). now rewrite app_nil_r.
Qed.

(** X16.  In the log of what happens to the requests, a request starts only
    first of all or right after a delay has elapsed, a delay begins only when
    a request has ended, whether it succeeded or failed, and a request ends
    only after it has started: two requests never overlap and a delay
    separates each one from the next. *)
Theorem scheduler_paced (events : list (Scheduler.Event Task)) :
  Scheduler.paced Task None (snd (Scheduler.run Task Scheduler.initial events)).
Proof.
  exact (proj1 (proj2 (run_invariant events Scheduler.initial None
                         initial_sound I))).
Qed.

End SchedulerFacts.

(* ===================================================================== *)
(** ** Further properties: the store and its persistence                  *)
(* ===================================================================== *)

Lemma run_all_snoc env ops op :
  run_all env (ops ++ [op]) = run env (run_all env ops) op.
Proof. unfold run_all. now rewrite fold_left_app. Qed.

Lemma persisted_same w w' :
  AnalysisState.results (state w') = AnalysisState.results (state w) ->
  AnalysisState.batches (state w') = AnalysisState.batches (state w) ->
  storage w' = storage w ->
  persisted w -> persisted w'.
Proof.
  unfold persisted. cbv zeta. intros -> -> ->. tauto.
Qed.

Lemma persisted_run env w op : persisted w -> persisted (run env w op).
Proof.
  intros Hw. destruct op as [text useDemo|texts batchName useDemo| |id|id];
    cbn [run].
  - unfold analyzeSingleText.
    destruct (analyze env useDemo (tick w) text) as [e|a]; cbn [snd].
    + now apply (persisted_same w).
    + left. reflexivity.
  - unfold analyzeBatch.
    pose proof (batch_loop_state env useDemo (List.length texts) texts 0
                  [] (start_loading (state w)) (tick w)) as Hst.
    destruct (batch_loop env useDemo (List.length texts) texts 0 []
                (start_loading (state w)) (tick w)) as [[out st] n].
    cbn [fst snd] in Hst. destruct Hst as (Hr & Hb & _ & _).
    destruct out as [e|results]; cbn [snd].
    + now apply (persisted_same w).
    + left. reflexivity.
  - right. repeat split.
  - left. reflexivity.
  - left. reflexivity.
Qed.

(** X17.  After any sequence of operations from the empty state, the
    collections last handed to [saveToLocalStorage] are the current ones: the
    storage was written with exactly the current results and batches, or it
    holds neither record and both collections are empty.  No operation, a
    failed analysis included, leaves the state and what was saved apart. *)
Theorem storage_mirrors_state (env : Env) (ops : list Op) :
  persisted (run_all env ops).
Proof.
  induction ops as [|op ops IH] using rev_ind.
  - right. repeat split.
  - rewrite run_all_snoc. now apply persisted_run.
Qed.

(** What the loop returns when no analysis fails. *)
Lemma batch_loop_success env useDemo total texts :
  forall i results st n,
  first_failure env useDemo texts n = None ->
  exists new,
    fst (fst (batch_loop env useDemo total texts i results st n))
    = inr (results ++ new)%list
    /\ snd (batch_loop env useDemo total texts i results st n)
       = (n + List.length (non_blank texts))%nat
    /\ map SentimentResult.text new = non_blank texts
    /\ forall j r, nth_error new j = Some r ->
         exists a,
           analyze env useDemo (n + j) (SentimentResult.text r) = inr a
           /\ r = build_result env (n + j) (SentimentResult.text r) a.
Proof.
  induction texts as [|text rest IH]; intros i results st n Hok.
  - exists []. cbn. rewrite app_nil_r. repeat split; auto.
    intros [|j] r; discriminate.
  - cbn [batch_loop first_failure non_blank filter] in *.
    destruct (Js.truthy (Js.trim text)) eqn:Et.
    + destruct (analyze env useDemo n text) as [e|a] eqn:Ea; [discriminate|].
      destruct (IH (S i) (results ++ [build_result env n text a])%list
                  (set_progress st (of_nat (i + 1) / of_nat total * 100))
                  (S n) Hok) as (new & Hout & Hn & Htexts & Hnth).
      exists (build_result env n text a :: new).
      rewrite Hout, Hn, <- app_assoc. cbn [List.length map].
      fold (non_blank rest). rewrite Htexts.
      repeat split; auto; try lia.
      intros [|j] r Hr; cbn in Hr.
      * injection Hr as <-. exists a. rewrite Nat.add_0_r. cbn. auto.
      * destruct (Hnth j r Hr) as (a' & Ha' & Hr').
        exists a'. replace (n + S j)%nat with (S n + j)%nat by lia. auto.
    + apply (IH (S i) results _ n Hok).
Qed.

(** X18.  When no analysis of the batch fails, [analyzeBatch] returns a
    batch with the given name whose results are, in input order, one per
    non-blank entry, each built from what the service answered for that
    entry; the results are put in front of the result collection, the batch
    in front of the batch collection, both collections are persisted and the
    loading flag is cleared. *)
Theorem analyzeBatch_success (env : Env) (texts : list string)
    (batchName : string) (useDemo : bool) (w : World) :
  first_failure env useDemo texts (tick w) = None ->
  let out := analyzeBatch env texts batchName useDemo w in
  exists batch,
    fst out = inr batch
    /\ BatchResult.name batch = batchName
    /\ map SentimentResult.text (BatchResult.results batch) = non_blank texts
    /\ (forall j r, nth_error (BatchResult.results batch) j = Some r ->
          exists a,
            analyze env useDemo (tick w + j) (SentimentResult.text r) = inr a
            /\ r = build_result env (tick w + j) (SentimentResult.text r) a)
    /\ AnalysisState.results (state (snd out))
       = (BatchResult.results batch ++ AnalysisState.results (state w))%list
    /\ AnalysisState.batches (state (snd out))
       = batch :: AnalysisState.batches (state w)
    /\ AnalysisState.isLoading (state (snd out)) = false
    /\ storage (snd out)
       = saveToLocalStorage (AnalysisState.results (state (snd out)))
           (AnalysisState.batches (state (snd out))).
Proof.
  intros Hok. cbv zeta. unfold analyzeBatch.
  destruct (batch_loop_success env useDemo (List.length texts) texts 0 []
              (start_loading (state w)) (tick w) Hok)
    as (new & Hout & _ & Htexts & Hnth).
  pose proof (batch_loop_state env useDemo (List.length texts) texts 0
                [] (start_loading (state w)) (tick w)) as Hst.
  destruct (batch_loop env useDemo (List.length texts) texts 0 []
              (start_loading (state w)) (tick w)) as [[out st] n].
  cbn [fst snd] in *. subst out. destruct Hst as (Hr & Hb & _ & _).
  cbn [app fst snd state storage AnalysisState.results AnalysisState.batches
       AnalysisState.isLoading].
  eexists. split; [reflexivity|].
  cbn [BatchResult.name BatchResult.results].
  rewrite Hr, Hb. cbn [start_loading AnalysisState.results AnalysisState.batches].
  repeat split; auto.
Qed.

(** Three entries, the second blank. *)
Lemma analyzeBatch_success_witness :
  exists batch,
    fst (analyzeBatch Sample.env_ok ["good movie"; "  "; "terrible film"] "t1"
           true empty_world) = inr batch
    /\ map SentimentResult.text (BatchResult.results batch)
       = ["good movie"; "terrible film"].
Proof.
  destruct (analyzeBatch_success Sample.env_ok
              ["good movie"; "  "; "terrible film"] "t1" true empty_world
              eq_refl) as (batch & H1 & _ & H3 & _).
  exists batch. split; assumption.
Defined.

(* ===================================================================== *)
(** ** Further properties: summaries and progress                         *)
(* ===================================================================== *)

Lemma count_sentiment_cons s r results :
  count_sentiment s (r :: results)
  = ((if Sentiment_eqb (SentimentResult.sentiment r) s then 1 else 0)
     + count_sentiment s results)%nat.
Proof.
  unfold count_sentiment. simpl.
  destruct (Sentiment_eqb (SentimentResult.sentiment r) s); reflexivity.
Qed.

Lemma count_sentiment_total results :
  (count_sentiment Positive results + count_sentiment Negative results
   + count_sentiment Neutral results = List.length results)%nat.
Proof.
  induction results as [|r results IH]; [reflexivity|].
  rewrite !count_sentiment_cons. simpl List.length.
  destruct (SentimentResult.sentiment r); simpl; lia.
Qed.

Lemma calculateSummary_fold results acc :
  fold_left ExportService.bump results acc
  = ExportService.mkCounts
      (ExportService.positive acc + count_sentiment Positive results)
      (ExportService.negative acc + count_sentiment Negative results)
      (ExportService.neutral acc + count_sentiment Neutral results).
Proof.
  revert acc. induction results as [|r results IH]; intros [p g u].
  - cbn. f_equal; lia.
  - cbn [fold_left]. rewrite IH, !count_sentiment_cons.
    unfold ExportService.bump.
    destruct (SentimentResult.sentiment r); cbn; f_equal; lia.
Qed.

(** X19.  [calculateSummary] of the export service counts every result
    once: its three counts are the numbers of positive, negative and neutral
    results and add up to the number of results. *)
Theorem calculateSummary_counts (results : list SentimentResult.t) :
  let c := ExportService.calculateSummary results in
  ExportService.positive c = count_sentiment Positive results
  /\ ExportService.negative c = count_sentiment Negative results
  /\ ExportService.neutral c = count_sentiment Neutral results
  /\ (ExportService.positive c + ExportService.negative c
      + ExportService.neutral c = List.length results)%nat.
Proof.
  cbv zeta. unfold ExportService.calculateSummary.
  rewrite calculateSummary_fold. cbn.
  repeat split; auto. apply count_sentiment_total.
Qed.

Lemma summarized_run env w op : summarized w -> summarized (run env w op).
Proof.
  intros Hw. destruct op as [text useDemo|texts batchName useDemo| |id|id];
    cbn [run].
  - unfold analyzeSingleText.
    destruct (analyze env useDemo (tick w) text); exact Hw.
  - unfold analyzeBatch.
    pose proof (batch_loop_state env useDemo (List.length texts) texts 0
                  [] (start_loading (state w)) (tick w)) as Hst.
    destruct (batch_loop env useDemo (List.length texts) texts 0 []
                (start_loading (state w)) (tick w)) as [[out st] n].
    cbn [fst snd] in Hst. destruct Hst as (_ & Hb & _ & _).
    destruct out as [e|results]; unfold summarized; cbn; rewrite Hb.
    + exact Hw.
    + intros b [<- | Hin]; [reflexivity | now apply Hw].
  - intros b [].
  - exact Hw.
  - intros b Hin. apply Hw. unfold deleteBatch in Hin. cbn in Hin.
    apply filter_In in Hin. tauto.
Qed.

(** X20.  In every state reached from the empty one, whatever was deleted
    since, each stored batch has the summary of its own result list:
    [totalTexts] is the number of its results, the three counts add up to it,
    and they are the counts [calculateSummary] of the export service finds. *)
Theorem stored_batch_summary (env : Env) (ops : list Op) (b : BatchResult.t) :
  In b (AnalysisState.batches (state (run_all env ops))) ->
  let s := BatchResult.summary b in
  BatchResult.totalTexts s = List.length (BatchResult.results b)
  /\ (BatchResult.positiveCount s + BatchResult.negativeCount s
      + BatchResult.neutralCount s = BatchResult.totalTexts s)%nat
  /\ ExportService.calculateSummary (BatchResult.results b) = summary_counts s.
Proof.
  intros Hin. cbv zeta.
  assert (H : summarized (run_all env ops)).
  { clear. induction ops as [|op ops IH] using rev_ind.
    - intros b [].
    - rewrite run_all_snoc. now apply summarized_run. }
  rewrite (H b Hin). unfold summarize, summary_counts.
  cbn [BatchResult.totalTexts BatchResult.positiveCount
       BatchResult.negativeCount BatchResult.neutralCount].
  refine (conj eq_refl (conj (count_sentiment_total _) _)).
  unfold ExportService.calculateSummary. rewrite calculateSummary_fold.
  reflexivity.
Qed.

(** A batch of two, after one of its results was deleted. *)
Lemma stored_batch_summary_witness :
  exists b,
    In b (AnalysisState.batches
            (state (run_all Sample.env_ok
                      [ AnalyzeBatch ["good movie"; "fine film"] "t1" true;
                        DeleteResult "result_" ])))
    /\ BatchResult.totalTexts (BatchResult.summary b) = 2%nat
    /\ List.length (BatchResult.results b) = 2%nat.
Proof.
  eexists. split; [cbn; left; reflexivity|].
  split; [|reflexivity].
  refine (proj1 (stored_batch_summary Sample.env_ok
                   [ AnalyzeBatch ["good movie"; "fine film"] "t1" true;
                     DeleteResult "result_" ] _ _)).
  cbn. left. reflexivity.
Defined.

Lemma of_nat_pos n : (0 < n)%nat -> 0 < of_nat n.
Proof.
  intros H. unfold of_nat. change 0 with (inject_Z 0).
  rewrite <- Zlt_Qlt. lia.
Qed.

(** The progress the loop leaves when it runs to its end. *)
Lemma batch_loop_progress env useDemo total texts :
  forall i results st n,
  first_failure env useDemo texts n = None ->
  texts <> [] ->
  AnalysisState.progress
    (snd (fst (batch_loop env useDemo total texts i results st n)))
  = of_nat (i + List.length texts) / of_nat total * 100.
Proof.
  induction texts as [|text rest IH]; intros i results st n Hok Hne;
    [congruence|].
  cbn [batch_loop first_failure] in *.
  assert (Hstep : forall results' st' n',
             first_failure env useDemo rest n' = None ->
             AnalysisState.progress st' = of_nat (i + 1) / of_nat total * 100 ->
             AnalysisState.progress
               (snd (fst (batch_loop env useDemo total rest (S i) results' st' n')))
             = of_nat (i + List.length (text :: rest)) / of_nat total * 100).
  { intros results' st' n' Hok' Hp. destruct rest as [|text' rest'].
    - cbn. rewrite Hp. reflexivity.
    - rewrite (IH (S i) results' st' n' Hok') by discriminate.
      do 3 f_equal. cbn [List.length]. lia. }
  destruct (Js.truthy (Js.trim text)).
  - destruct (analyze env useDemo n text) as [e|a]; [discriminate|].
    now apply Hstep.
  - now apply Hstep.
Qed.

(** X21.  When no analysis fails and the list given to [analyzeBatch] is
    not empty, blank entries included, the progress is 100 when the call
    returns. *)
Theorem analyzeBatch_progress_complete (env : Env) (texts : list string)
    (batchName : string) (useDemo : bool) (w : World) :
  first_failure env useDemo texts (tick w) = None ->
  texts <> [] ->
  AnalysisState.progress
    (state (snd (analyzeBatch env texts batchName useDemo w))) == 100.
Proof.
  intros Hok Hne. unfold analyzeBatch.
  pose proof (batch_loop_progress env useDemo (List.length texts) texts 0 []
                (start_loading (state w)) (tick w) Hok Hne) as Hp.
  destruct (batch_loop_no_failure env useDemo (List.length texts) texts 0 []
              (start_loading (state w)) (tick w) Hok) as (results & Hout).
  destruct (batch_loop env useDemo (List.length texts) texts 0 []
              (start_loading (state w)) (tick w)) as [[out st] n].
  cbn [fst snd] in *. subst out. cbn. rewrite Hp. cbn [Nat.add].
  assert (Hlen : 0 < of_nat (List.length texts)).
  { apply of_nat_pos. destruct texts; [congruence | cbn; lia]. }
  field. lra.
Qed.

(** Two entries, one of them blank. *)
Lemma analyzeBatch_progress_complete_witness :
  AnalysisState.progress
    (state (snd (analyzeBatch Sample.env_ok ["good movie"; " "] "t1" true
                   empty_world))) == 100.
Proof.
  apply (analyzeBatch_progress_complete Sample.env_ok ["good movie"; " "] "t1"
           true empty_world).
  - reflexivity.
  - discriminate.
Defined.

Lemma confidence_sum_bounds results acc :
  (forall r, In r results -> unit_score (SentimentResult.confidence r)) ->
  acc <= fold_left (fun sum r => sum + SentimentResult.confidence r) results acc
  /\ fold_left (fun sum r => sum + SentimentResult.confidence r) results acc
     <= acc + of_nat (List.length results).
Proof.
  revert acc. induction results as [|r results IH]; intros acc H.
  - cbn [fold_left List.length]. change (of_nat 0) with 0. split; lra.
  - cbn [fold_left List.length].
    destruct (H r (or_introl eq_refl)) as [H0 H1].
    destruct (IH (acc + SentimentResult.confidence r)
                (fun x Hx => H x (or_intror Hx))) as [Hlo Hhi].
    assert (Hs : of_nat (S (List.length results))
                 == of_nat (List.length results) + 1).
    { unfold of_nat. rewrite Nat2Z.inj_succ, <- Z.add_1_r, inject_Z_plus.
      reflexivity. }
    rewrite Hs. split; lra.
Qed.

(** X22.  For a batch that is not empty and whose results all have a
    confidence between 0 and 1, the [averageConfidence] of the summary is a
    finite number between 0 and 1. *)
Theorem summarize_average_bounded (results : list SentimentResult.t) :
  results <> [] ->
  (forall r, In r results -> unit_score (SentimentResult.confidence r)) ->
  exists q,
    BatchResult.averageConfidence (summarize results) = Js.Finite q
    /\ unit_score q.
Proof.
  intros Hne Hunit. unfold summarize. cbn [BatchResult.averageConfidence].
  assert (Hlen : 0 < of_nat (List.length results)).
  { apply of_nat_pos. destruct results; [congruence | cbn; lia]. }
  destruct (confidence_sum_bounds results 0 Hunit) as [Hlo Hhi].
  unfold Js.div.
  destruct (Qeq_bool (of_nat (List.length results)) 0) eqn:E.
  - apply Qeq_bool_iff in E. lra.
  - eexists. split; [reflexivity|].
    apply Qdiv_unit; [exact Hlo | lra | exact Hlen].
Qed.

(** Two results with confidence 0.9. *)
Lemma summarize_average_bounded_witness :
  exists q,
    BatchResult.averageConfidence
      (summarize [build_result Sample.env_ok 0 "a" Sample.good;
                  build_result Sample.env_ok 1 "b" Sample.good])
    = Js.Finite q
    /\ unit_score q.
Proof.
  apply (summarize_average_bounded
           [build_result Sample.env_ok 0 "a" Sample.good;
            build_result Sample.env_ok 1 "b" Sample.good]).
  - discriminate.
  - intros r [<- | [<- | []]]; split; discriminate.
Defined.

(* ===================================================================== *)
(** ** Further properties: deletions                                      *)
(* ===================================================================== *)

Section Filters.

Context {A : Type}.

Lemma filter_idem (f : A -> bool) l : filter f (filter f l) = filter f l.
Proof.
  induction l as [|x l IH]; simpl; [reflexivity|].
  destruct (f x) eqn:E; simpl; [rewrite E; f_equal|]; exact IH.
Qed.

Lemma filter_comm (f g : A -> bool) l :
  filter f (filter g l) = filter g (filter f l).
Proof.
  induction l as [|x l IH]; simpl; [reflexivity|].
  destruct (f x) eqn:Ef, (g x) eqn:Eg; simpl; rewrite ?Ef, ?Eg, IH; reflexivity.
Qed.

Lemma filter_all (f : A -> bool) l :
  (forall x, In x l -> f x = true) -> filter f l = l.
Proof.
  induction l as [|x l IH]; simpl; intros H; [reflexivity|].
  rewrite (H x (or_introl eq_refl)). f_equal. apply IH. auto.
Qed.

Lemma filter_none (f : A -> bool) l :
  (forall x, In x l -> f x = false) -> filter f l = [].
Proof.
  induction l as [|x l IH]; simpl; intros H; [reflexivity|].
  rewrite (H x (or_introl eq_refl)). apply IH. auto.
Qed.

End Filters.

Lemma find_batch_filter_self a batches :
  find (fun b => String.eqb (BatchResult.id b) a)
    (filter (fun b => negb (String.eqb (BatchResult.id b) a)) batches) = None.
Proof.
  induction batches as [|b batches IH]; simpl; [reflexivity|].
  destruct (String.eqb (BatchResult.id b) a) eqn:E; simpl; [exact IH|].
  now rewrite E.
Qed.

Lemma find_batch_filter_other a c batches :
  a <> c ->
  find (fun b => String.eqb (BatchResult.id b) a)
    (filter (fun b => negb (String.eqb (BatchResult.id b) c)) batches)
  = find (fun b => String.eqb (BatchResult.id b) a) batches.
Proof.
  intros Hne. induction batches as [|b batches IH]; simpl; [reflexivity|].
  destruct (String.eqb (BatchResult.id b) c) eqn:Ec; simpl.
  - apply String.eqb_eq in Ec.
    replace (String.eqb (BatchResult.id b) a) with false; [exact IH|].
    symmetry. apply String.eqb_neq. congruence.
  - destruct (String.eqb (BatchResult.id b) a); [reflexivity | exact IH].
Qed.

Lemma deleteBatch_unfold id w :
  deleteBatch id w
  = let found := find (fun b => String.eqb (BatchResult.id b) id)
                   (AnalysisState.batches (state w)) in
    let newBatches := filter (fun b => negb (String.eqb (BatchResult.id b) id))
                        (AnalysisState.batches (state w)) in
    let newResults := cascade found (AnalysisState.results (state w)) in
    mkWorld (with_collections (state w) newResults newBatches)
      (saveToLocalStorage newResults newBatches) (tick w).
Proof. reflexivity. Qed.

Lemma cascade_comm f1 f2 results :
  cascade f1 (cascade f2 results) = cascade f2 (cascade f1 results).
Proof.
  destruct f1, f2; simpl; try reflexivity. apply filter_comm.
Qed.

Lemma cascade_delete_comm found i results :
  cascade found
    (filter (fun r => negb (String.eqb (SentimentResult.id r) i)) results)
  = filter (fun r => negb (String.eqb (SentimentResult.id r) i))
      (cascade found results).
Proof. destruct found; simpl; [apply filter_comm | reflexivity]. Qed.

(** X23.  [deleteResult] is idempotent and two deletions of results commute:
    state and storage are the same whatever the order, and deleting twice is
    deleting once. *)
Theorem deleteResult_idempotent_commutative (i j : string) (w : World) :
  deleteResult i (deleteResult i w) = deleteResult i w
  /\ deleteResult i (deleteResult j w) = deleteResult j (deleteResult i w).
Proof.
  unfold deleteResult, with_collections. cbn. split.
  - now rewrite filter_idem.
  - now rewrite filter_comm.
Qed.

(** X24.  [deleteBatch] is idempotent, it commutes with [deleteResult], and
    two deletions of batches commute. *)
Theorem deleteBatch_idempotent_commutative (a c i : string) (w : World) :
  deleteBatch a (deleteBatch a w) = deleteBatch a w
  /\ deleteBatch a (deleteResult i w) = deleteResult i (deleteBatch a w)
  /\ deleteBatch a (deleteBatch c w) = deleteBatch c (deleteBatch a w).
Proof.
  refine (conj _ (conj _ _)).
  - rewrite !deleteBatch_unfold. cbn.
    rewrite find_batch_filter_self, filter_idem. reflexivity.
  - rewrite !deleteBatch_unfold. unfold deleteResult. cbn.
    rewrite cascade_delete_comm. reflexivity.
  - destruct (string_dec a c) as [-> | Hne]; [reflexivity|].
    rewrite !deleteBatch_unfold. cbn.
    rewrite (find_batch_filter_other a c) by assumption.
    rewrite (find_batch_filter_other c a) by congruence.
    rewrite cascade_comm, filter_comm. reflexivity.
Qed.

Lemma delete_absent_result i results :
  ~ In i (map SentimentResult.id results) ->
  filter (fun r => negb (String.eqb (SentimentResult.id r) i)) results = results.
Proof.
  intros H. apply filter_all. intros r Hr.
  apply negb_true_iff, String.eqb_neq. intros E. apply H.
  rewrite <- E. now apply in_map.
Qed.

Lemma delete_absent_batch a batches :
  ~ In a (map BatchResult.id batches) ->
  filter (fun b => negb (String.eqb (BatchResult.id b) a)) batches = batches
  /\ find (fun b => String.eqb (BatchResult.id b) a) batches = None.
Proof.
  intros H.
  assert (Hall : forall b, In b batches ->
             String.eqb (BatchResult.id b) a = false).
  { intros b Hb. apply String.eqb_neq. intros E. apply H.
    rewrite <- E. now apply in_map. }
  split.
  - apply filter_all. intros b Hb. now rewrite (Hall b Hb).
  - destruct (find _ batches) as [b|] eqn:E; [|reflexivity].
    apply find_some in E. destruct E as [Hb E]. now rewrite (Hall b Hb) in E.
Qed.

(** X25.  Deleting an id that is not there changes nothing in the state:
    [deleteResult] with an id no stored result has, and [deleteBatch] with an
    id no stored batch has, leave the state as it is. *)
Theorem delete_absent_id (id : string) (w : World) :
  (~ In id (result_ids w) -> state (deleteResult id w) = state w)
  /\ (~ In id (map BatchResult.id (AnalysisState.batches (state w))) ->
      state (deleteBatch id w) = state w).
Proof.
  split.
  - intros H. unfold deleteResult, with_collections. cbn.
    rewrite (delete_absent_result _ _ H). now destruct (state w).
  - intros H. rewrite deleteBatch_unfold. cbn.
    destruct (delete_absent_batch _ _ H) as [-> ->]. cbn.
    unfold with_collections. now destruct (state w).
Qed.



(** X27.  Deleting the batch a successful [analyzeBatch] has just created
    undoes the batch: when none of the ids generated for it was in use
    before, the result and batch collections are those of before the call. *)
Theorem analyzeBatch_deleteBatch (env : Env) (texts : list string)
    (batchName : string) (useDemo : bool) (w : World) (batch : BatchResult.t) :
  fst (analyzeBatch env texts batchName useDemo w) = inr batch ->
  (forall r, In r (BatchResult.results batch) ->
             ~ In (SentimentResult.id r) (result_ids w)) ->
  ~ In (BatchResult.id batch)
       (map BatchResult.id (AnalysisState.batches (state w))) ->
  let w' := deleteBatch (BatchResult.id batch)
              (snd (analyzeBatch env texts batchName useDemo w)) in
  AnalysisState.results (state w') = AnalysisState.results (state w)
  /\ AnalysisState.batches (state w') = AnalysisState.batches (state w).
Proof.
  unfold analyzeBatch.
  pose proof (batch_loop_state env useDemo (List.length texts) texts 0
                [] (start_loading (state w)) (tick w)) as Hst.
  destruct (batch_loop env useDemo (List.length texts) texts 0 []
              (start_loading (state w)) (tick w)) as [[out st] n].
  cbn [fst snd] in Hst. destruct Hst as (Hr & Hb & _ & _).
  destruct out as [e|results]; [discriminate|].
  cbn [fst snd]. intros [= <-] Hres Hbat. cbv zeta.
  cbn [BatchResult.id BatchResult.results] in *.
  rewrite deleteBatch_unfold. cbn. rewrite String.eqb_refl. cbn.
  rewrite Hr, Hb. cbn [start_loading AnalysisState.results AnalysisState.batches].
  split.
  - rewrite filter_app.
    rewrite (filter_none _ results), (filter_all _ (AnalysisState.results (state w))).
    + reflexivity.
    + intros r Hin. apply negb_true_iff.
      destruct (existsb _ results) eqn:E; [|reflexivity].
      apply existsb_exists in E. destruct E as (br & Hbr & E).
      apply String.eqb_eq in E. exfalso. apply (Hres br Hbr).
      rewrite E. now apply in_map.
    + intros r Hin. apply negb_false_iff, existsb_exists.
      exists r. split; [assumption | apply String.eqb_refl].
  - now apply delete_absent_batch.
Qed.

(** A batch of two on the empty state. *)
Lemma analyzeBatch_deleteBatch_witness :
  AnalysisState.results
    (state (deleteBatch "batch_ii"
              (snd (analyzeBatch Sample.env_ok ["good movie"; "fine film"] "t1"
                      true empty_world))))
  = [].
Proof.
  refine (proj1 (analyzeBatch_deleteBatch Sample.env_ok
                   ["good movie"; "fine film"] "t1" true empty_world
                   _ eq_refl _ _)).
  - intros r _ [].
  - intros [].
Defined.

(* ===================================================================== *)
(** ** Further properties: export                                         *)
(* ===================================================================== *)

(** X28.  The JSON export reports as [total_results] the number of results
    it contains; without a date range it contains every result, in order;
    with one it contains exactly the results whose timestamp lies between
    start and end, both included; and a field that the options exclude is
    never set. *)
Theorem exportToJSON_selection (toISOString : Z -> string) (now : Z)
    (results : list SentimentResult.t) (options : ExportService.ExportOptions) :
  let doc := ExportService.exportToJSON toISOString now results options in
  ExportService.total_results doc = List.length (ExportService.results doc)
  /\ (ExportService.dateRange options = None ->
      map ExportService.id (ExportService.results doc)
      = map SentimentResult.id results)
  /\ (forall start finish,
        ExportService.dateRange options = Some (start, finish) ->
        map ExportService.id (ExportService.results doc)
        = map SentimentResult.id
            (filter (fun r => ((start <=? SentimentResult.timestamp r)
                               && (SentimentResult.timestamp r <=? finish))%Z)
               results))
  /\ (forall e, In e (ExportService.results doc) ->
        (ExportService.includeConfidence options = false ->
         ExportService.confidence e = None /\ ExportService.scores e = None)
        /\ (ExportService.includeKeywords options = false ->
            ExportService.keywords e = None)
        /\ (ExportService.includeTimestamp options = false ->
            ExportService.timestamp e = None)).
Proof.
  cbv zeta. unfold ExportService.exportToJSON.
  cbn [ExportService.total_results ExportService.results].
  refine (conj eq_refl (conj _ (conj _ _))).
  - intros H. rewrite H. cbn [ExportService.isWithinDateRange].
    rewrite filter_all by reflexivity.
    rewrite map_map. reflexivity.
  - intros start finish H. rewrite H. rewrite map_map. reflexivity.
  - intros e He. apply in_map_iff in He. destruct He as (r & <- & _).
    unfold ExportService.export_one. cbn.
    refine (conj _ (conj _ _)); intros H; rewrite H; auto.
Qed.
